(** * Citi Bikes Strategy Dashboard: the derived-metrics pipeline

    A shallow embedding of the statistics computed at module level by
    [Scripts/2.7 Refining and Presenting a Dashboard.py] (lines 51-153):
    the normalisation of the ranking table's column labels, the daily,
    monthly and seasonal roll-ups, the weekend split, the top-20
    preparation with its convenience picks, and the number formatter.

    Conventions of the model.
    - A pandas frame is a list of rows; a raised Python exception is the
      [Err] case of [result].
    - Counts of trips are Python integers, hence [Z].  The values of the
      ranking table are numpy numbers of the dtype that [read_csv] infers:
      the sums over them wrap around in an [int64] column and are exact up
      to 2^53 in a [float64] or [uint64] column, see [value_arithmetic].  Shares are the exact quotients in [Q]; Python rounds
      them to the nearest double.
    - The trip table is the frame after line 51.  It is typed: every trip
      carries a calendar date (the [date] column is read with
      [parse_dates]).  A table without rows is the file with its header
      only.
    - The library's sort ([sort_values], numpy's [argsort] underneath) is
      taken through its contract, see [argsort_contract]; [aquicksort] is
      numpy's scalar introsort.
    - The mean and median of the daily counts (floating point) are
      computed by the script between the modelled lines; they do not raise
      on a table with rows and no property below depends on them, so they
      are left out. *)

From Stdlib Require Import ZArith QArith Bool Ascii String List Lia.
From Stdlib Require Import Permutation Sorted DecimalString.
Import ListNotations.

Local Open Scope string_scope.
Local Open Scope list_scope.
Local Open Scope Z_scope.

(** ** Exceptions *)

Inductive exn : Type :=
| KeyError
| ValueError
| IndexError
| ZeroDivisionError
| AttributeError
| TypeError
| OverflowError.

Inductive result (A : Type) : Type :=
| Ok (a : A)
| Err (e : exn).

Arguments Ok {A} a.
Arguments Err {A} e.

Definition bind {A B : Type} (r : result A) (k : A -> result B) : result B :=
  match r with
  | Ok a => k a
  | Err e => Err e
  end.

Notation "x <- r ;; k" := (bind r (fun x => k))
  (at level 61, r at next level, right associativity).

(** ** Calendar *)

Record Timestamp : Type := mkDate { year : Z; month : Z; day : Z }.

Definition date_compare (a b : Timestamp) : comparison :=
  match year a ?= year b with
  | Eq => match month a ?= month b with
          | Eq => day a ?= day b
          | c => c
          end
  | c => c
  end.

(** [Timestamp.to_period('M')]: the year and the month. *)
Definition Period : Type := (Z * Z)%type.

Definition to_period (d : Timestamp) : Period := (year d, month d).

Definition period_compare (a b : Period) : comparison :=
  match fst a ?= fst b with
  | Eq => snd a ?= snd b
  | c => c
  end.

(** Days since 1970-01-01 in the proleptic Gregorian calendar. *)
Definition days_from_civil (d : Timestamp) : Z :=
  let y := if month d <=? 2 then year d - 1 else year d in
  let era := y / 400 in
  let yoe := y - era * 400 in
  let mp := if month d <=? 2 then month d + 9 else month d - 3 in
  let doy := (153 * mp + 2) / 5 + day d - 1 in
  let doe := yoe * 365 + yoe / 4 - yoe / 100 + doy in
  era * 146097 + doe - 719468.

Inductive DayName : Type :=
| Monday | Tuesday | Wednesday | Thursday | Friday | Saturday | Sunday.

(** [Timestamp.day_name()]; 1970-01-01 was a Thursday. *)
Definition day_name (d : Timestamp) : DayName :=
  match (days_from_civil d + 3) mod 7 with
  | 0 => Monday
  | 1 => Tuesday
  | 2 => Wednesday
  | 3 => Thursday
  | 4 => Friday
  | 5 => Saturday
  | _ => Sunday
  end.

(** [daily['dow'].isin(['Saturday','Sunday'])] *)
Definition is_weekend (d : Timestamp) : bool :=
  match day_name d with
  | Saturday | Sunday => true
  | _ => false
  end.

Inductive Season : Type := Winter | Spring | Summer | Fall.

Definition season_label (s : Season) : string :=
  match s with
  | Winter => "Winter"
  | Spring => "Spring"
  | Summer => "Summer"
  | Fall => "Fall"
  end.

Definition season_of (d : Timestamp) : Season :=
  let m := month d in
  if (m =? 12) || (m =? 1) || (m =? 2) then Winter
  else if (m =? 3) || (m =? 4) || (m =? 5) then Spring
  else if (m =? 6) || (m =? 7) || (m =? 8) then Summer
  else Fall.

(** The group keys of [groupby('season')] are the labels, in string order. *)
Definition season_compare (a b : Season) : comparison :=
  String.compare (season_label a) (season_label b).

Definition month_name (m : Z) : string :=
  match m with
  | 1 => "January" | 2 => "February" | 3 => "March" | 4 => "April"
  | 5 => "May" | 6 => "June" | 7 => "July" | 8 => "August"
  | 9 => "September" | 10 => "October" | 11 => "November"
  | _ => "December"
  end.

(** ** Group-by

    [groupby(key)] with the default [sort=True]: one row per distinct key,
    keys ascending, the grouped column summed ([size()] sums ones). *)

Section GroupBy.

Context {K : Type}.
Variable cmp : K -> K -> comparison.

Fixpoint bump (k : K) (n : Z) (acc : list (K * Z)) : list (K * Z) :=
  match acc with
  | [] => [(k, n)]
  | (k', c) :: rest =>
      match cmp k k' with
      | Lt => (k, n) :: acc
      | Eq => (k', c + n) :: rest
      | Gt => (k', c) :: bump k n rest
      end
  end.

Definition groupby_sum (rows : list (K * Z)) : list (K * Z) :=
  fold_left (fun acc r => bump (fst r) (snd r) acc) rows [].

Definition groupby_size (keys : list K) : list (K * Z) :=
  groupby_sum (map (fun k => (k, 1)) keys).

End GroupBy.

(** ** Sorting

    [sort_values(by, ascending=False)] on one column goes through pandas'
    [nargsort]: the keys and their positions are reversed, numpy's
    [argsort] orders them ascending, and the resulting indexer is reversed
    again.  The default [kind='quicksort'] (numpy's introsort, or a
    vectorised sort where numpy has one for the machine) is not stable, so
    [argsort] is a parameter of the pipeline and only its contract is
    assumed: it returns the positions of its argument, arranged so that the
    keys ascend. *)

(** [l.take(indexer)]; under the contract every position is in range. *)
Definition select {X : Type} (l : list X) (indexer : list nat) : list X :=
  flat_map (fun i => match nth_error l i with
                     | Some x => [x]
                     | None => []
                     end) indexer.

Definition argsort_contract (argsort : list Z -> list nat) : Prop :=
  forall keys,
    Permutation (argsort keys) (seq 0 (length keys)) /\
    Sorted Z.le (select keys (argsort keys)).

(** Keeps rows with equal keys in their order of appearance. *)
Definition argsort_stable (argsort : list Z -> list nat) : Prop :=
  forall keys i j ki kj,
    nth_error keys i = Some ki -> nth_error keys j = Some kj ->
    ki = kj -> (i < j)%nat ->
    exists p q, nth_error (argsort keys) p = Some i /\
                nth_error (argsort keys) q = Some j /\ (p < q)%nat.

(** Two sorts that meet the contract: insertion sort over the keys paired
    with their positions, placing a new key before ([stable_argsort]) or
    after ([reversing_argsort]) the keys equal to it. *)
Fixpoint insert_by (before : Z -> Z -> bool) (p : Z * nat)
    (l : list (Z * nat)) : list (Z * nat) :=
  match l with
  | [] => [p]
  | q :: rest =>
      if before (fst p) (fst q) then p :: l
      else q :: insert_by before p rest
  end.

Definition isort_by (before : Z -> Z -> bool) (l : list (Z * nat))
    : list (Z * nat) :=
  fold_right (insert_by before) [] l.

Definition enumerate (keys : list Z) : list (Z * nat) :=
  combine keys (seq 0 (length keys)).

Definition stable_argsort (keys : list Z) : list nat :=
  map snd (isort_by Z.leb (enumerate keys)).

Definition reversing_argsort (keys : list Z) : list nat :=
  map snd (isort_by Z.ltb (enumerate keys)).

Section Sorting.

Variable argsort : list Z -> list nat.

Definition nargsort_desc (items : list Z) : list nat :=
  let idx := seq 0 (length items) in
  let non_nans := rev items in
  let non_nan_idx := rev idx in
  rev (select non_nan_idx (argsort non_nans)).

Definition sort_values_desc {X : Type} (by_ : X -> Z) (frame : list X)
    : list X :=
  select frame (nargsort_desc (map by_ frame)).

End Sorting.

(** *** numpy's introsort

    [argsort(kind='quicksort')] as numpy's scalar code has it
    ([aquicksort_] in [npysort/quicksort.cpp], the code that runs where
    numpy has no vectorised sort for the machine): median-of-three
    partitions while a range holds more than 17 positions, insertion sort
    below that, heapsort ([aheapsort_]) for a range that is reached after
    [2 * floor(log2 n)] partitions.  [tosort] is the array of positions that
    is rearranged, [v] the keys.  The loops carry a fuel that they never
    exhaust: the scans stop at the sentinels that the median-of-three step
    places, every other loop runs at most once per position. *)

Section Introsort.

Variable v : list Z.

(** [v[*p]] *)
Definition key_at (tosort : list nat) (p : Z) : Z :=
  nth (nth (Z.to_nat p) tosort 0%nat) v 0.

(** [tosort[p] = x] *)
Fixpoint store (tosort : list nat) (p : nat) (x : nat) : list nat :=
  match tosort, p with
  | [], _ => []
  | _ :: rest, O => x :: rest
  | y :: rest, S p' => y :: store rest p' x
  end.

Definition INTP_SWAP (tosort : list nat) (p q : Z) : list nat :=
  let x := nth (Z.to_nat p) tosort 0%nat in
  let y := nth (Z.to_nat q) tosort 0%nat in
  store (store tosort (Z.to_nat p) y) (Z.to_nat q) x.

(** Swaps [*p] and [*q] when [v[*p] < v[*q]]. *)
Definition swap_if_less (tosort : list nat) (p q : Z) : list nat :=
  if key_at tosort p <? key_at tosort q then INTP_SWAP tosort p q
  else tosort.

(** [do { ++pi; } while (v[*pi] < vp)] *)
Fixpoint scan_up (fuel : nat) (tosort : list nat) (vp : Z) (pi : Z) : Z :=
  match fuel with
  | O => pi + 1
  | S fuel' =>
      if key_at tosort (pi + 1) <? vp then scan_up fuel' tosort vp (pi + 1)
      else pi + 1
  end.

(** [do { --pj; } while (vp < v[*pj])] *)
Fixpoint scan_down (fuel : nat) (tosort : list nat) (vp : Z) (pj : Z) : Z :=
  match fuel with
  | O => pj - 1
  | S fuel' =>
      if vp <? key_at tosort (pj - 1) then scan_down fuel' tosort vp (pj - 1)
      else pj - 1
  end.

Fixpoint partition_loop (fuel : nat) (tosort : list nat) (vp : Z) (pi pj : Z)
    : list nat * Z :=
  let pi := scan_up (length tosort) tosort vp pi in
  let pj := scan_down (length tosort) tosort vp pj in
  match fuel with
  | O => (tosort, pi)
  | S fuel' =>
      if pi >=? pj then (tosort, pi)
      else partition_loop fuel' (INTP_SWAP tosort pi pj) vp pi pj
  end.

(** One partition of [tosort[pl .. pr]]; the result is the array and the
    place [pi] of the pivot. *)
Definition median_partition (tosort : list nat) (pl pr : Z) : list nat * Z :=
  let pm := pl + Z.shiftr (pr - pl) 1 in
  let tosort := swap_if_less tosort pm pl in
  let tosort := swap_if_less tosort pr pm in
  let tosort := swap_if_less tosort pm pl in
  let vp := key_at tosort pm in
  let tosort := INTP_SWAP tosort pm (pr - 1) in
  let (tosort, pi) := partition_loop (length tosort) tosort vp pl (pr - 1) in
  (INTP_SWAP tosort pi (pr - 1), pi).

(** [while (pj > pl && vp < v[*pk]) { *pj-- = *pk--; }] *)
Fixpoint shift_up (fuel : nat) (tosort : list nat) (pl : Z) (vp : Z) (pj : Z)
    : list nat * Z :=
  match fuel with
  | O => (tosort, pj)
  | S fuel' =>
      if (pj >? pl) && (vp <? key_at tosort (pj - 1))
      then shift_up fuel'
             (store tosort (Z.to_nat pj)
                (nth (Z.to_nat (pj - 1)) tosort 0%nat))
             pl vp (pj - 1)
      else (tosort, pj)
  end.

Definition insertion_sort (tosort : list nat) (pl pr : Z) : list nat :=
  fold_left
    (fun tosort k =>
       let pi := pl + 1 + Z.of_nat k in
       let vi := nth (Z.to_nat pi) tosort 0%nat in
       let (tosort, pj) :=
         shift_up (length tosort) tosort pl (nth vi v 0) pi in
       store tosort (Z.to_nat pj) vi)
    (seq 0 (Z.to_nat (pr - pl))) tosort.

(** The inner loop of the heapsort on [tosort[pl .. pl + n - 1]], with the
    one-based indexing of the source: [a[k]] is [tosort[pl + k - 1]]. *)
Fixpoint sift_down (fuel : nat) (tosort : list nat) (pl n : Z) (tmp : nat)
    (i j : Z) : list nat :=
  let a k := Z.to_nat (pl + k - 1) in
  match fuel with
  | O => store tosort (a i) tmp
  | S fuel' =>
      if j <=? n then
        let j :=
          if (j <? n)
             && (nth (nth (a j) tosort 0%nat) v 0
                 <? nth (nth (a (j + 1)) tosort 0%nat) v 0)
          then j + 1 else j in
        if nth tmp v 0 <? nth (nth (a j) tosort 0%nat) v 0
        then sift_down fuel' (store tosort (a i) (nth (a j) tosort 0%nat))
               pl n tmp j (j + j)
        else store tosort (a i) tmp
      else store tosort (a i) tmp
  end.

Definition aheapsort (tosort : list nat) (pl n : Z) : list nat :=
  let a k := Z.to_nat (pl + k - 1) in
  let fuel := length tosort in
  let heap :=
    fold_left
      (fun tosort k =>
         let l := Z.shiftr n 1 - Z.of_nat k in
         sift_down fuel tosort pl n (nth (a l) tosort 0%nat) l (Z.shiftl l 1))
      (seq 0 (Z.to_nat (Z.shiftr n 1))) tosort in
  fold_left
    (fun tosort k =>
       let n := n - Z.of_nat k in
       let tmp := nth (a n) tosort 0%nat in
       let tosort := store tosort (a n) (nth (a 1) tosort 0%nat) in
       sift_down fuel tosort pl (n - 1) tmp 1 2)
    (seq 0 (Z.to_nat (n - 1))) heap.

(** The range [pl .. pr] with [cdepth] partitions left.  The source keeps
    the larger part of a partition on a stack and goes on with the smaller
    one; a part taken from the stack is heap-sorted when its depth is
    negative. *)
Fixpoint aquicksort_range (fuel : nat) (tosort : list nat) (pl pr : Z)
    (cdepth : Z) : list nat :=
  match fuel with
  | O => tosort
  | S fuel' =>
      if pr - pl >? 16 then
        let (tosort, pi) := median_partition tosort pl pr in
        let from_stack tosort pl pr :=
          if cdepth - 1 <? 0 then aheapsort tosort pl (pr - pl + 1)
          else aquicksort_range fuel' tosort pl pr (cdepth - 1) in
        if pi - pl <? pr - pi then
          from_stack (aquicksort_range fuel' tosort pl (pi - 1) (cdepth - 1))
            (pi + 1) pr
        else
          from_stack (aquicksort_range fuel' tosort (pi + 1) pr (cdepth - 1))
            pl (pi - 1)
      else insertion_sort tosort pl pr
  end.

End Introsort.

Definition aquicksort (v : list Z) : list nat :=
  let num := Z.of_nat (length v) in
  aquicksort_range v (S (length v)) (seq 0 (length v)) 0 (num - 1)
    (Z.log2 num * 2).

(** ** The trip table and its roll-ups (lines 77-101) *)

Record Trip : Type := mkTrip {
  date : Timestamp;
  trip_start_station : option string;
  trip_rideable_type : option string
}.

Definition trip_on (d : Timestamp) : Trip := mkTrip d None None.

Definition date_ltb (a b : Timestamp) : bool :=
  match date_compare a b with
  | Lt => true
  | _ => false
  end.

(** [Series.min()] and [Series.max()] of a column of timestamps; [None]
    when the column has no cell. *)
Definition series_min (l : list Timestamp) : option Timestamp :=
  match l with
  | [] => None
  | d :: rest => Some (fold_left (fun a b => if date_ltb b a then b else a) rest d)
  end.

Definition series_max (l : list Timestamp) : option Timestamp :=
  match l with
  | [] => None
  | d :: rest => Some (fold_left (fun a b => if date_ltb a b then b else a) rest d)
  end.

(** [Series.idxmax()]: the first position that holds the maximum; raises
    [ValueError] on an empty series. *)
Fixpoint argmax_from (best_i : nat) (best : Z) (i : nat) (l : list Z) : nat :=
  match l with
  | [] => best_i
  | x :: rest =>
      if best <? x then argmax_from i x (S i) rest
      else argmax_from best_i best (S i) rest
  end.

Definition idxmax (l : list Z) : result nat :=
  match l with
  | [] => Err ValueError
  | x :: rest => Ok (argmax_from 0%nat x 1%nat rest)
  end.

(** [frame.loc[i]] on the default range index. *)
Definition loc {X : Type} (frame : list X) (i : nat) : result X :=
  match nth_error frame i with
  | Some r => Ok r
  | None => Err KeyError
  end.

Definition sum_trips {X : Type} (rows : list (X * Z)) : Z :=
  fold_right Z.add 0 (map snd rows).

(** Python's [a / b] on integers. *)
Definition truediv (a b : Z) : result Q :=
  if b =? 0 then Err ZeroDivisionError
  else Ok (inject_Z a / inject_Z b)%Q.

Definition daily (df : list Trip) : list (Timestamp * Z) :=
  groupby_size date_compare (map date df).

Definition sample_total (df : list Trip) : Z := Z.of_nat (length df).

(** Line 82: [df['date'].min().date()] and [df['date'].max().date()].
    In a table without rows the [date] column holds no timestamp and is of
    dtype [object]; its minimum and maximum are the float [nan], which has
    no method [date]: [AttributeError]. *)
Definition date_min (df : list Trip) : result Timestamp :=
  match series_min (map date df) with
  | Some d => Ok d
  | None => Err AttributeError
  end.

Definition date_max (df : list Trip) : result Timestamp :=
  match series_max (map date df) with
  | Some d => Ok d
  | None => Err AttributeError
  end.

Definition peak_row (df : list Trip) : result (Timestamp * Z) :=
  i <- idxmax (map snd (daily df)) ;; loc (daily df) i.

Definition monthly (df : list Trip) : list (Period * Z) :=
  groupby_sum period_compare
    (map (fun r => (to_period (fst r), snd r)) (daily df)).

Definition weekend_total (df : list Trip) : Z :=
  sum_trips (filter (fun r => is_weekend (fst r)) (daily df)).

Definition weekday_total (df : list Trip) : Z :=
  sum_trips (filter (fun r => negb (is_weekend (fst r))) (daily df)).

Definition weekend_share (df : list Trip) : result Q :=
  if weekend_total df + weekday_total df >? 0
  then truediv (weekend_total df) (weekend_total df + weekday_total df)
  else Ok 0%Q.

Section SortedRollups.

Variable argsort : list Z -> list nat.

Definition monthly_sorted (df : list Trip) : list (Period * Z) :=
  sort_values_desc argsort snd (monthly df).

Definition top_months (df : list Trip) : list (Period * Z) :=
  firstn 3 (monthly_sorted df).

Definition seasonal (df : list Trip) : list (Season * Z) :=
  sort_values_desc argsort snd
    (groupby_size season_compare (map (fun t => season_of (date t)) df)).

End SortedRollups.

(** The decimal digits of a count. *)
Definition decimal (n : N) : string :=
  NilZero.string_of_uint (N.to_uint n).

(** ** The ranking table (lines 52-65 and 110-141)

    The frame read from [top20_startstations_2022.csv]: column labels (byte
    strings, duplicates possible after renaming) and rows of cells. *)

(** A cell is missing, a text or a number; the numbers of the table are
    trip counts, integers from 0 on. *)
Inductive cell : Type :=
| NaN
| Str (s : string)
| Num (n : N).

Record DataFrame : Type := mkFrame {
  columns : list string;
  rows : list (list cell)
}.

(** Every row has a cell per column. *)
Definition well_formed (df : DataFrame) : Prop :=
  Forall (fun r => length r = length (columns df)) (rows df).

(** [DataFrame.empty]: an axis of length 0. *)
Definition empty (df : DataFrame) : bool :=
  match rows df, columns df with
  | [], _ => true
  | _, [] => true
  | _, _ => false
  end.

Definition lower_ascii (c : ascii) : ascii :=
  let n := nat_of_ascii c in
  if ((65 <=? n) && (n <=? 90))%nat then ascii_of_nat (n + 32) else c.

(** [str.lower()] on the ASCII letters. *)
Fixpoint lower (s : string) : string :=
  match s with
  | EmptyString => EmptyString
  | String c rest => String (lower_ascii c) (lower rest)
  end.

(** [pat in s] *)
Fixpoint contains (pat s : string) : bool :=
  prefix pat s ||
  match s with
  | EmptyString => false
  | String _ rest => contains pat rest
  end.

Definition has_label (label : string) (cols : list string) : bool :=
  existsb (String.eqb label) cols.

(** [rename(columns={c: new})] on the labels. *)
Definition rename (c new : string) (cols : list string) : list string :=
  map (fun l => if String.eqb l c then new else l) cols.

Definition is_station_col (c : string) : bool :=
  contains "start" (lower c) && contains "station" (lower c).

Definition is_value_col (c : string) : bool :=
  existsb (String.eqb (lower c)) ["count"; "trips"; "trip_count"; "value"].

(** The loop [for c in top20.columns: if p(c): top20 = top20.rename(...)]:
    it walks the labels the frame had on entry and renames in the current
    frame. *)
Definition rename_matching (p : string -> bool) (new : string)
    (cols : list string) : list string :=
  fold_left (fun acc c => if p c then rename c new acc else acc) cols cols.

Definition normalize_station (cols : list string) : list string :=
  if negb (has_label "start_station_name" cols)
  then rename_matching is_station_col "start_station_name" cols
  else cols.

Definition normalize_value (cols : list string) : list string :=
  if negb (has_label "value" cols)
  then rename_matching is_value_col "value" cols
  else cols.

Definition normalize_columns (cols : list string) : list string :=
  normalize_value (normalize_station cols).

Definition normalize (top20 : DataFrame) : DataFrame :=
  mkFrame (normalize_columns (columns top20)) (rows top20).

(** The cells of a row under the columns that carry [label]. *)
Definition getcol (cols : list string) (row : list cell) (label : string)
    : list cell :=
  map snd (filter (fun p => String.eqb label (fst p)) (combine cols row)).

(** [frame[labels]]: every column carrying one of the labels, in the order
    of [labels]; [KeyError] when a label is missing. *)
Definition getitem (labels : list string) (df : DataFrame)
    : result DataFrame :=
  if forallb (fun l => has_label l (columns df)) labels
  then Ok (mkFrame
             (flat_map (fun l => filter (String.eqb l) (columns df)) labels)
             (map (fun r => flat_map (getcol (columns df) r) labels)
                (rows df)))
  else Err KeyError.

Definition notna (c : cell) : bool :=
  match c with
  | NaN => false
  | _ => true
  end.

Definition dropna (df : DataFrame) : DataFrame :=
  mkFrame (columns df) (filter (forallb notna) (rows df)).

(** [row['start_station_name']]: a scalar when one column carries the
    label, a series of the cells otherwise. *)
Inductive pick : Type :=
| Scalar (c : cell)
| Series (cs : list cell).

Definition to_pick (cs : list cell) : pick :=
  match cs with
  | [c] => Scalar c
  | _ => Series cs
  end.

(** The cells of the [value] column, as the file has them. *)
Definition value_column (top20 : DataFrame) : list cell :=
  flat_map (fun r => getcol (columns top20) r "value") (rows top20).

Definition is_text (c : cell) : bool :=
  match c with
  | Str _ => true
  | _ => false
  end.

(** In a column that holds a text, every cell is a text: a number is the
    string of its digits. *)
Definition text_of (c : cell) : string :=
  match c with
  | Str s => s
  | Num n => decimal n
  | NaN => ""
  end.

(** The valid rows of the table as (station, value): numbers, or texts when
    the [value] column is a column of texts. *)
Inductive ValueColumn : Type :=
| Numeric (valid : list (pick * Z))
| Textual (valid : list (pick * string)).

(** In a frame every row has one cell under a label that is unique. *)
Definition numeric_rows (cols : list string) (rs : list (list cell))
    : list (pick * Z) :=
  flat_map (fun r => match getcol cols r "value" with
                     | [Num n] =>
                         [(to_pick (getcol cols r "start_station_name"),
                           Z.of_N n)]
                     | _ => []
                     end) rs.

Definition textual_rows (cols : list string) (rs : list (list cell))
    : list (pick * string) :=
  flat_map (fun r => match getcol cols r "value" with
                     | [c] =>
                         [(to_pick (getcol cols r "start_station_name"),
                           text_of c)]
                     | _ => []
                     end) rs.

(** [top20[['start_station_name','value']].dropna()], up to the test that
    [sort_values('value')] makes first: it raises [ValueError] when the
    label [value] is not unique. *)
Definition valid_rows (top20 : DataFrame) : result ValueColumn :=
  sel <- getitem ["start_station_name"; "value"] top20 ;;
  let kept := dropna sel in
  if (length (filter (String.eqb "value") (columns kept)) =? 1)%nat
  then Ok (if existsb is_text (value_column sel)
           then Textual (textual_rows (columns kept) (rows kept))
           else Numeric (numeric_rows (columns kept) (rows kept)))
  else Err ValueError.

(** *** The arithmetic of the value column

    The dtype that [read_csv] infers for a column of counts: [int64] when
    no cell is missing and every count is below 2^63, [float64] when a cell
    is missing and every count is below 2^63, [uint64] when no cell is
    missing and every count is below 2^64; any other column is left as
    [object]. *)

Inductive dtype : Type := int64 | uint64 | float64 | object.

(** 2^53 *)
Definition float_exact_max : Z := 9007199254740992.

(** 2^63 *)
Definition int64_bound : Z := 9223372036854775808.

Definition below (bound : Z) (c : cell) : bool :=
  match c with
  | Num n => Z.of_N n <? bound
  | NaN => true
  | Str _ => false
  end.

Definition inferred_dtype (column : list cell) : dtype :=
  if forallb (below int64_bound) column then
    if forallb notna column then int64 else float64
  else if forallb notna column && forallb (below (2 * int64_bound)) column
  then uint64
  else object.

(** Sums in an [int64] column wrap around.  Sums in a [float64] or
    [uint64] column are exact as long as the counts add up to at most 2^53.
    In a column left as [object] only a total of 0 is taken as computed.
    What is left ([Other]) is not computed here but taken from the
    parameters in [Library], and so is every column of texts. *)
Inductive arithmetic : Type := Exact | Int64 | Other.

(** The signed 64-bit integer congruent to [z] modulo 2^64. *)
Definition wrap64 (z : Z) : Z :=
  (z + int64_bound) mod (2 * int64_bound) - int64_bound.

Definition sum_values (l : list Z) : Z := fold_right Z.add 0 l.

Definition value_arithmetic (top20 : DataFrame) (values : list Z)
    : arithmetic :=
  match inferred_dtype (value_column top20) with
  | int64 => Int64
  | float64 | uint64 =>
      if sum_values values <=? float_exact_max then Exact else Other
  | object => if sum_values values =? 0 then Exact else Other
  end.

(** The arithmetic that the picks are computed in; when the selection
    raises, nothing is computed. *)
Definition top20_arithmetic (top20 : DataFrame) : arithmetic :=
  match valid_rows top20 with
  | Ok (Numeric valid) => value_arithmetic top20 (map snd valid)
  | Ok (Textual _) => Other
  | Err _ => Exact
  end.

(** [x + y] on two values of the column. *)
Definition machine_add (a : arithmetic) (x y : Z) : Z :=
  match a with
  | Int64 => wrap64 (x + y)
  | _ => x + y
  end.

(** [Series.sum()] on the values of the column. *)
Definition machine_sum (a : arithmetic) (l : list Z) : Z :=
  match a with
  | Int64 => wrap64 (sum_values l)
  | _ => sum_values l
  end.

Record RankRow : Type := mkRank {
  start_station_name : pick;
  value : Z;
  share_of_top20 : Q
}.

(** [iloc[i]] *)
Definition iloc {X : Type} (frame : list X) (i : nat) : result X :=
  match nth_error frame i with
  | Some r => Ok r
  | None => Err IndexError
  end.

Record Picks : Type := mkPicks {
  t1_name : pick; t1_val : Z;
  t2_name : pick; t2_val : Z;
  t3_name : pick; t3_val : Z;
  top1_share : Q;
  top3_share : Q;
  top5_share : Q
}.

(** Lines 139-141. *)
Definition default_picks : Picks :=
  mkPicks (Scalar (Str "")) 0 (Scalar (Str "")) 0 (Scalar (Str "")) 0
    0%Q 0%Q 0%Q.

(** The picks hold the defaults; a share equals [0.0] as a number. *)
Definition is_default (p : Picks) : Prop :=
  t1_name p = Scalar (Str "") /\ t1_val p = 0 /\
  t2_name p = Scalar (Str "") /\ t2_val p = 0 /\
  t3_name p = Scalar (Str "") /\ t3_val p = 0 /\
  (top1_share p == 0)%Q /\ (top3_share p == 0)%Q /\ (top5_share p == 0)%Q.

(** What pandas and numpy compute outside [Exact] and [Int64]: any
    behaviour, including raising.
    - [text_prep]: lines 112-117 on a column of texts (the texts sorted and
      concatenated, [int()] of the concatenation, the division of a text);
    - [other_prep]: lines 112-117 on counts whose sum rounds (in
      [float64]), passes 2^53 in [uint64], or is taken in a column left as
      [object];
    - [other_picks]: lines 132-137 on such a ranking.
    Their results are given in the types of the numeric ranking. *)
Record Library : Type := mkLibrary {
  text_prep : list (pick * string) -> result (list RankRow * Z);
  other_prep : list (pick * Z) -> result (list RankRow * Z);
  other_picks : list RankRow -> Z -> result Picks
}.

Section Top20.

Variable argsort : list Z -> list nat.
Variable lib : Library.

(** Lines 111-119, on the normalised frame.  After the selection the
    frame has its [value] column, so the guard on line 113 always takes
    the sum.  An empty frame is left as it was read (it has no rows, or no
    columns) and the total is 0. *)
Definition top20_prep (top20 : DataFrame) : result (list RankRow * Z) :=
  if negb (empty top20) then
    valid <- valid_rows top20 ;;
    match valid with
    | Textual valid => text_prep lib valid
    | Numeric valid =>
        match value_arithmetic top20 (map snd valid) with
        | Other => other_prep lib valid
        | a =>
            let ranked := sort_values_desc argsort snd valid in
            let top20_total := machine_sum a (map snd ranked) in
            let share v :=
              if top20_total >? 0 then (inject_Z v / inject_Z top20_total)%Q
              else 0%Q in
            Ok (map (fun r => mkRank (fst r) (snd r) (share (snd r))) ranked,
                top20_total)
        end
    end
  else Ok ([], 0).

(** Lines 131-141. *)
Definition handy_picks (a : arithmetic) (top20 : list RankRow)
    (top20_total : Z) : result Picks :=
  if (top20_total >? 0) && (5 <=? length top20)%nat then
    match a with
    | Other => other_picks lib top20 top20_total
    | _ =>
        r0 <- iloc top20 0 ;;
        r1 <- iloc top20 1 ;;
        r2 <- iloc top20 2 ;;
        s3 <- truediv (machine_add a (machine_add a (value r0) (value r1))
                         (value r2)) top20_total ;;
        s5 <- truediv (machine_sum a (map value (firstn 5 top20)))
                top20_total ;;
        Ok (mkPicks (start_station_name r0) (value r0)
              (start_station_name r1) (value r1)
              (start_station_name r2) (value r2)
              (share_of_top20 r0) s3 s5)
    end
  else Ok default_picks.

(** Lines 58-65, 111-119 and 131-141 in sequence. *)
Definition top20_picks (top20 : DataFrame) : result Picks :=
  prep <- top20_prep (normalize top20) ;;
  handy_picks (top20_arithmetic (normalize top20)) (fst prep) (snd prep).

End Top20.

(** ** Counts per label (lines 103-108 and 121-127)

    [Series.value_counts()]: missing values are dropped, the distinct
    values are counted, in the order in which they first appear, and the
    counts are sorted descending.  A column that the table lacks behaves as
    a column of missing values: either way the resulting frame has no
    rows. *)

Fixpoint tally (s : string) (acc : list (string * Z)) : list (string * Z) :=
  match acc with
  | [] => [(s, 1)]
  | (k, c) :: rest =>
      if String.eqb s k then (k, c + 1) :: rest
      else (k, c) :: tally s rest
  end.

Definition present (col : list (option string)) : list string :=
  flat_map (fun o => match o with
                     | Some s => [s]
                     | None => []
                     end) col.

Definition tally_all (values : list string) : list (string * Z) :=
  fold_left (fun acc s => tally s acc) values [].

Record StationCount : Type := mkStationCount {
  sc_station : string;
  sc_trips : Z;
  share_of_sample : Q
}.

Section ValueCounts.

Variable argsort : list Z -> list nat.

Definition value_counts (col : list (option string)) : list (string * Z) :=
  sort_values_desc argsort snd (tally_all (present col)).

Definition type_counts (df : list Trip) : list (string * Z) :=
  value_counts (map trip_rideable_type df).

(** Line 125: the share is [trips / sample_total], or [0.0] for every row
    when [sample_total] is 0. *)
Definition sample_station_counts (df : list Trip) : list StationCount :=
  map (fun r =>
         mkStationCount (fst r) (snd r)
           (if sample_total df =? 0 then 0%Q
            else (inject_Z (snd r) / inject_Z (sample_total df))%Q))
    (value_counts (map trip_start_station df)).

End ValueCounts.

(** ** The statistics bundle: the module body from line 58 to line 141 *)

Record Stats : Type := mkStats {
  st_sample_total : Z;
  st_date_range : Timestamp * Timestamp;
  st_daily : list (Timestamp * Z);
  st_peak_row : Timestamp * Z;
  st_monthly_sorted : list (Period * Z);
  st_seasonal : list (Season * Z);
  st_weekend_total : Z;
  st_weekday_total : Z;
  st_weekend_share : Q;
  st_type_counts : list (string * Z);
  st_top20 : list RankRow;
  st_top20_total : Z;
  st_sample_station_counts : list StationCount;
  st_picks : Picks
}.

Section Script.

Variable argsort : list Z -> list nat.
Variable lib : Library.

Definition quick_stats (df : list Trip) (top20 : DataFrame)
    : result Stats :=
  let top20 := normalize top20 in
  lo <- date_min df ;;
  hi <- date_max df ;;
  peak <- peak_row df ;;
  share <- weekend_share df ;;
  prep <- top20_prep argsort lib top20 ;;
  picks <- handy_picks lib (top20_arithmetic top20) (fst prep) (snd prep) ;;
  Ok (mkStats (sample_total df) (lo, hi) (daily df)
        peak (monthly_sorted argsort df) (seasonal argsort df)
        (weekend_total df) (weekday_total df) share
        (type_counts argsort df)
        (fst prep) (snd prep)
        (sample_station_counts argsort df) picks).

End Script.

(** ** Pretty numbers (lines 149-153) *)

Inductive pyobj : Type :=
| PyInt (z : Z)
| PyStr (s : string).

(** Digits taken from the right in groups of three. *)
Fixpoint group3 (rev_digits : list ascii) : list ascii :=
  match rev_digits with
  | a :: b :: c :: ((_ :: _) as more) =>
      a :: b :: c :: ","%char :: group3 more
  | l => l
  end.

(** [f"{x:,}"] for an integer. *)
Definition comma_grouped (z : Z) : string :=
  let digits := list_ascii_of_string (decimal (Z.abs_N z)) in
  let body := string_of_list_ascii (rev (group3 (rev digits))) in
  if z <? 0 then String "-"%char body else body.

(** [f"{x:,}"]: the grouping option is refused for a string. *)
Definition format_grouped (x : pyobj) : result string :=
  match x with
  | PyInt z => Ok (comma_grouped z)
  | PyStr _ => Err ValueError
  end.

Section Fmt.

(** [numerize.numerize], an external package: any behaviour, including
    raising. *)
Variable numerize : pyobj -> result string.

Definition fmt (x : pyobj) : result string :=
  match numerize x with
  | Ok s => Ok s
  | Err _ => format_grouped x
  end.

End Fmt.

(** ** Reading the ranking table (lines 52-55)

    [None] is a missing [top20_startstations_2022.csv]: the script then
    starts from a frame with the two expected columns and no rows. *)
Definition read_top20 (file : option DataFrame) : DataFrame :=
  match file with
  | Some frame => frame
  | None => mkFrame ["start_station_name"; "value"] []
  end.

(** * Vocabulary of the properties *)

(** Counts arranged from the largest to the smallest. *)
Definition descending (l : list Z) : Prop := StronglySorted Z.ge l.

(** A comparison that decides equality and whose [Lt] is a strict order. *)
Record strict_order {K : Type} (cmp : K -> K -> comparison) : Prop := {
  cmp_eq : forall a b, cmp a b = Eq <-> a = b;
  cmp_gt : forall a b, cmp a b = Gt -> cmp b a = Lt;
  cmp_trans : forall a b c, cmp a b = Lt -> cmp b c = Lt -> cmp a c = Lt
}.

Definition precedes {K : Type} (cmp : K -> K -> comparison) (a b : K) : Prop :=
  cmp a b = Lt.

Definition same_key {K : Type} (cmp : K -> K -> comparison) (k k' : K) : bool :=
  match cmp k k' with
  | Eq => true
  | _ => false
  end.

(** The sum of the grouped column over the rows that carry key [k]. *)
Definition total_of {K : Type} (cmp : K -> K -> comparison) (k : K)
    (rows : list (K * Z)) : Z :=
  sum_values (map snd (filter (fun r => same_key cmp k (fst r)) rows)).

Definition trips_in_season (s : Season) (df : list Trip) : Z :=
  Z.of_nat
    (length (filter (fun t => same_key season_compare s (season_of (date t)))
               df)).

(** Position [r] holds the maximum [m] of the series, and no earlier
    position does. *)
Definition first_maximum (l : list Z) (r : nat) (m : Z) : Prop :=
  nth_error l r = Some m /\
  Forall (fun y => y <= m) l /\
  forall k y, (k < r)%nat -> nth_error l k = Some y -> y < m.

(** Rows with equal counts appear earlier month first. *)
Definition ties_chronological (l : list (Period * Z)) : Prop :=
  forall i j a b, (i < j)%nat ->
    nth_error l i = Some a -> nth_error l j = Some b ->
    snd a = snd b -> period_compare (fst a) (fst b) = Lt.

(** The order that C5 describes: the busier month first, and of two months
    with equal counts the earlier one. *)
Definition busier_then_earlier (a b : Period * Z) : Prop :=
  snd b < snd a \/ (snd a = snd b /\ period_compare (fst a) (fst b) = Lt).

(** Orders on the (key, position) pairs of the insertion sorts. *)
Definition key_le (p q : Z * nat) : Prop := fst p <= fst q.

Definition key_then_position (p q : Z * nat) : Prop :=
  fst p < fst q \/ (fst p = fst q /\ (snd p < snd q)%nat).

Definition is_comma (c : ascii) : bool := Ascii.eqb c ","%char.

Definition strip_commas (s : list ascii) : list ascii :=
  filter (fun c => negb (is_comma c)) s.

(** ** Sample inputs *)

(** The sample of scenario A: one trip on 2022-01-05 and two on
    2022-06-10. *)
Definition scenario_a : list Trip :=
  [trip_on (mkDate 2022 1 5); trip_on (mkDate 2022 6 10);
   trip_on (mkDate 2022 6 10)].

Definition five_idle_stations : DataFrame :=
  mkFrame ["start_station_name"; "value"]
    [[Str "Grove St PATH"; Num 0%N]; [Str "Hoboken Terminal"; Num 0%N];
     [Str "City Hall"; Num 0%N]; [Str "Newport Pkwy"; Num 0%N];
     [Str "Sip Ave"; Num 0%N]].

Definition six_rows_one_missing : DataFrame :=
  mkFrame ["Start Station"; "Trips"]
    [[Str "Grove St PATH"; Num 0%N]; [Str "Hoboken Terminal"; Num 0%N];
     [Str "City Hall"; NaN]; [Str "Newport Pkwy"; Num 0%N];
     [Str "Sip Ave"; Num 0%N]; [Str "Hamilton Park"; Num 0%N]].

Definition six_busy_stations : DataFrame :=
  mkFrame ["Start_Station"; "trips"]
    [[Str "A"; Num 3%N]; [Str "B"; Num 9%N]; [Str "C"; NaN];
     [Str "D"; Num 1%N]; [Str "E"; Num 3%N]; [Str "F"; Num 4%N]].

Definition unrecognised_ranking : DataFrame :=
  mkFrame ["station"; "n"] [[Str "Grove St PATH"; Num 3%N]].

(** The sum of the grouped column over the rows whose key passes [f]. *)
Definition sum_where {K : Type} (f : K -> bool) (rows : list (K * Z)) : Z :=
  sum_values (map snd (filter (fun r => f (fst r)) rows)).

(** The number of trips whose date passes [f]. *)
Definition trips_where (f : Timestamp -> bool) (df : list Trip) : Z :=
  Z.of_nat (length (filter (fun t => f (date t)) df)).

(** Not later than, on dates. *)
Definition date_le (a b : Timestamp) : Prop := date_compare a b <> Gt.

Definition sum_shares (l : list Q) : Q := fold_right Qplus 0%Q l.

(** The number of values equal to [s]. *)
Definition occurrences (s : string) (values : list string) : Z :=
  Z.of_nat (length (filter (String.eqb s) values)).

(** The valid rows of a two-column table given as (station, value) cells. *)
Definition kept_pairs (pairs : list (cell * cell)) : list (pick * Z) :=
  flat_map (fun p => match fst p, snd p with
                     | NaN, _ => []
                     | name, Num n => [(Scalar name, Z.of_N n)]
                     | _, _ => []
                     end) pairs.

Definition two_column_frame (pairs : list (cell * cell)) : DataFrame :=
  mkFrame ["start_station_name"; "value"]
    (map (fun p => [fst p; snd p]) pairs).

Definition ambiguous_counts : DataFrame :=
  mkFrame ["Start Station"; "count"; "trips"]
    [[Str "Grove St PATH"; Num 3%N; Num 3%N]].

(** A library that refuses every value column outside [Exact] and
    [Int64]. *)
Definition refusing_library : Library :=
  mkLibrary (fun _ => Err TypeError) (fun _ => Err OverflowError)
    (fun _ _ => Err OverflowError).

(** Five stations with 2^62 trips each: the values add up to 5 * 2^62,
    which is 2^62 as a signed 64-bit integer. *)
Definition five_huge_stations : DataFrame :=
  mkFrame ["start_station_name"; "value"]
    [[Str "A"; Num 4611686018427387904%N];
     [Str "B"; Num 4611686018427387904%N];
     [Str "C"; Num 4611686018427387904%N];
     [Str "D"; Num 4611686018427387904%N];
     [Str "E"; Num 4611686018427387904%N]].

(** Two stations with 2^62 trips and three without trips: the values add up
    to 2^63, which is -2^63 as a signed 64-bit integer. *)
Definition two_huge_stations : DataFrame :=
  mkFrame ["start_station_name"; "value"]
    [[Str "A"; Num 4611686018427387904%N];
     [Str "B"; Num 4611686018427387904%N];
     [Str "C"; Num 0%N]; [Str "D"; Num 0%N]; [Str "E"; Num 0%N]].

(** The 24 months from January 2021 to December 2022 with 1, 2, 3, 1, 2,
    3, ... trips, on the first days of the month. *)
Definition trips_of_month (i : nat) : list Trip :=
  map (fun d => trip_on (mkDate (2021 + Z.of_nat (i / 12))
                           (Z.of_nat (i mod 12) + 1) (Z.of_nat d + 1)))
    (seq 0 (i mod 3 + 1)).

Definition two_years : list Trip := flat_map trips_of_month (seq 0 24).

(** Two bundles that agree, except for the order of the rows with equal
    counts in the two tables of counts per label. *)
Definition same_up_to_tied_labels (a b : Stats) : Prop :=
  st_sample_total a = st_sample_total b /\
  st_date_range a = st_date_range b /\
  st_daily a = st_daily b /\
  st_peak_row a = st_peak_row b /\
  st_monthly_sorted a = st_monthly_sorted b /\
  st_seasonal a = st_seasonal b /\
  st_weekend_total a = st_weekend_total b /\
  st_weekday_total a = st_weekday_total b /\
  st_weekend_share a = st_weekend_share b /\
  st_top20 a = st_top20 b /\
  st_top20_total a = st_top20_total b /\
  st_picks a = st_picks b /\
  Permutation (st_type_counts a) (st_type_counts b) /\
  Permutation (st_sample_station_counts a) (st_sample_station_counts b).

(** * Properties *)

(** ** The model on concrete inputs *)

Example days_epoch : days_from_civil (mkDate 1970 1 1) = 0.
Proof. reflexivity. Qed.

Example dow_2022_01_01 : day_name (mkDate 2022 1 1) = Saturday.
Proof. reflexivity. Qed.

Example dow_2022_06_10 : day_name (mkDate 2022 6 10) = Friday.
Proof. reflexivity. Qed.

Example dow_2024_02_29 : day_name (mkDate 2024 2 29) = Thursday.
Proof. reflexivity. Qed.

Example daily_scenario_a :
  daily scenario_a = [(mkDate 2022 1 5, 1); (mkDate 2022 6 10, 2)].
Proof. reflexivity. Qed.

Example peak_scenario_a : peak_row scenario_a = Ok (mkDate 2022 6 10, 2).
Proof. reflexivity. Qed.

Example seasonal_scenario_a :
  seasonal stable_argsort scenario_a = [(Summer, 2); (Winter, 1)].
Proof. reflexivity. Qed.

Example groupby_size_seasons :
  groupby_size season_compare [Winter; Summer; Fall; Summer]
  = [(Fall, 1); (Summer, 2); (Winter, 1)].
Proof. reflexivity. Qed.

Example argsort_ties :
  stable_argsort [3; 1; 2; 1; 3] = [1; 3; 2; 0; 4]%nat /\
  reversing_argsort [3; 1; 2; 1; 3] = [3; 1; 2; 4; 0]%nat.
Proof. split; reflexivity. Qed.

Example picks_six_busy_stations (lib : Library) :
  top20_picks stable_argsort lib six_busy_stations
  = Ok (mkPicks (Scalar (Str "B")) 9 (Scalar (Str "F")) 4
          (Scalar (Str "A")) 3 (9 # 20) (16 # 20) (20 # 20)).
Proof. reflexivity. Qed.

Example wrap64_examples :
  wrap64 20 = 20 /\ wrap64 (int64_bound - 1) = int64_bound - 1 /\
  wrap64 int64_bound = - int64_bound /\
  wrap64 (5 * 4611686018427387904) = 4611686018427387904.
Proof. repeat split. Qed.

(** The total of [five_huge_stations] wraps to 2^62: every share is 1, the
    three first values add up to -2^62 and the top-3 share is -1. *)
Example picks_five_huge_stations (lib : Library) :
  top20_arithmetic five_huge_stations = Int64 /\
  top20_picks stable_argsort lib five_huge_stations
  = Ok (mkPicks (Scalar (Str "A")) 4611686018427387904
          (Scalar (Str "B")) 4611686018427387904
          (Scalar (Str "C")) 4611686018427387904
          (4611686018427387904 # 4611686018427387904)
          (-4611686018427387904 # 4611686018427387904)
          (4611686018427387904 # 4611686018427387904)).
Proof. split; reflexivity. Qed.

(** The total of [two_huge_stations] wraps to -2^63: the picks keep their
    defaults although five valid rows carry trips. *)
Example picks_two_huge_stations (lib : Library) :
  top20_prep stable_argsort lib two_huge_stations
  = Ok ([mkRank (Scalar (Str "A")) 4611686018427387904 0;
         mkRank (Scalar (Str "B")) 4611686018427387904 0;
         mkRank (Scalar (Str "C")) 0 0; mkRank (Scalar (Str "D")) 0 0;
         mkRank (Scalar (Str "E")) 0 0], - int64_bound) /\
  top20_picks stable_argsort lib two_huge_stations = Ok default_picks.
Proof. split; reflexivity. Qed.

(** A column of texts is left to the library. *)
Example text_values_left_to_library (argsort : list Z -> list nat)
    (lib : Library) :
  top20_prep argsort lib
    (mkFrame ["start_station_name"; "value"]
       [[Str "A"; Str "1_0"]; [Str "B"; Num 20%N]; [NaN; Str "x"]])
  = text_prep lib [(Scalar (Str "A"), "1_0"); (Scalar (Str "B"), "20")].
Proof. reflexivity. Qed.


Example comma_grouped_examples :
  comma_grouped 0 = "0" /\ comma_grouped 999 = "999" /\
  comma_grouped 1000 = "1,000" /\ comma_grouped 100000 = "100,000" /\
  comma_grouped 1234567 = "1,234,567".
Proof. repeat split. Qed.


(** ** Taking rows by position *)

Lemma select_app {X : Type} (l : list X) (a b : list nat) :
  select l (a ++ b) = select l a ++ select l b.
Proof. unfold select. apply flat_map_app. Qed.

Lemma select_cons {X : Type} (l : list X) (i : nat) (ix : list nat) :
  select l (i :: ix) = select l [i] ++ select l ix.
Proof. apply (select_app l [i] ix). Qed.

Lemma select_rev {X : Type} (l : list X) (ix : list nat) :
  select l (rev ix) = rev (select l ix).
Proof.
  induction ix as [|i ix IH]; [reflexivity|].
  cbn [rev]. rewrite select_app, IH, (select_cons l i ix), rev_app_distr.
  f_equal. cbn. destruct (nth_error l i); reflexivity.
Qed.

Lemma select_map {X Y : Type} (f : X -> Y) (l : list X) (ix : list nat) :
  select (map f l) ix = map f (select l ix).
Proof.
  induction ix as [|i ix IH]; [reflexivity|].
  rewrite (select_cons (map f l)), (select_cons l), map_app, IH.
  f_equal. cbn. rewrite nth_error_map.
  destruct (nth_error l i); reflexivity.
Qed.

Lemma select_shift {X : Type} (a : X) (l : list X) (ix : list nat) :
  select (a :: l) (map S ix) = select l ix.
Proof.
  induction ix as [|i ix IH]; [reflexivity|].
  cbn. f_equal. exact IH.
Qed.

Lemma select_seq {X : Type} (l : list X) :
  select l (seq 0 (length l)) = l.
Proof.
  induction l as [|a l IH]; [reflexivity|].
  cbn [length seq]. rewrite <- seq_shift.
  change (select (a :: l) (0%nat :: map S (seq 0 (length l))))
    with (a :: select (a :: l) (map S (seq 0 (length l)))).
  now rewrite select_shift, IH.
Qed.

Lemma select_perm {X : Type} (l : list X) (p q : list nat) :
  Permutation p q -> Permutation (select l p) (select l q).
Proof. intros H. unfold select. now rewrite H. Qed.

(** Looking positions up through the reversed range reads the reversed
    list. *)
Lemma select_through_rev {X : Type} (l : list X) (ix : list nat) :
  select l (select (rev (seq 0 (length l))) ix) = select (rev l) ix.
Proof.
  induction ix as [|j ix IH]; [reflexivity|].
  rewrite (select_cons _ j ix), (select_cons (rev l) j ix).
  rewrite select_app, IH. f_equal.
  cbn. rewrite !nth_error_rev, length_seq.
  destruct (Nat.ltb_spec j (length l)) as [Hj|Hj]; [|reflexivity].
  rewrite nth_error_seq.
  destruct (Nat.ltb_spec (length l - S j) (length l)) as [_|Hk]; [|lia].
  cbn. now rewrite !app_nil_r.
Qed.

(** ** Descending order *)

Lemma StronglySorted_snoc {X : Type} (R : X -> X -> Prop) (l : list X) (a : X) :
  StronglySorted R l -> Forall (fun x => R x a) l ->
  StronglySorted R (l ++ [a]).
Proof.
  induction 1 as [|b l Hl IH Hb]; intros Ha; cbn.
  - constructor; constructor.
  - inversion Ha; subst. constructor; [now apply IH|].
    apply Forall_app. split; [assumption|]. now constructor.
Qed.

Lemma ascending_rev (l : list Z) :
  Sorted Z.le l -> descending (rev l).
Proof.
  intros H. apply Sorted_StronglySorted in H;
    [|intros x y z; apply Z.le_trans].
  induction H as [|a l Hl IH Ha]; cbn; [constructor|].
  apply StronglySorted_snoc; [exact IH|].
  apply Forall_rev. eapply Forall_impl; [|exact Ha].
  cbn. intros; lia.
Qed.

(** ** What the contract gives [sort_values] *)

Section SortFacts.

Variable argsort : list Z -> list nat.
Hypothesis contract : argsort_contract argsort.

Lemma nargsort_desc_perm (items : list Z) :
  Permutation (nargsort_desc argsort items) (seq 0 (length items)).
Proof.
  unfold nargsort_desc.
  rewrite <- Permutation_rev.
  destruct (contract (rev items)) as [Hp _].
  rewrite length_rev in Hp.
  rewrite (select_perm _ _ _ Hp).
  replace (length items) with (length (rev (seq 0 (length items))))
    at 2 by now rewrite length_rev, length_seq.
  rewrite select_seq. symmetry. apply Permutation_rev.
Qed.

Lemma sort_values_desc_perm {X : Type} (by_ : X -> Z) (frame : list X) :
  Permutation (sort_values_desc argsort by_ frame) frame.
Proof.
  unfold sort_values_desc.
  rewrite (select_perm _ _ _ (nargsort_desc_perm (map by_ frame))).
  rewrite length_map, select_seq. reflexivity.
Qed.

Lemma sort_values_desc_sorted {X : Type} (by_ : X -> Z) (frame : list X) :
  descending (map by_ (sort_values_desc argsort by_ frame)).
Proof.
  unfold sort_values_desc, nargsort_desc.
  rewrite <- select_map, select_rev, select_through_rev.
  apply ascending_rev. apply contract.
Qed.

Lemma sort_values_desc_length {X : Type} (by_ : X -> Z) (frame : list X) :
  length (sort_values_desc argsort by_ frame) = length frame.
Proof. apply Permutation_length, sort_values_desc_perm. Qed.

End SortFacts.

(** ** The two insertion sorts meet the contract *)

Section Insertion.

Variable before : Z -> Z -> bool.
Hypothesis before_true : forall a b, before a b = true -> a <= b.
Hypothesis before_false : forall a b, before a b = false -> b <= a.

Lemma insert_by_perm (p : Z * nat) (l : list (Z * nat)) :
  Permutation (insert_by before p l) (p :: l).
Proof.
  induction l as [|q l IH]; cbn; [reflexivity|].
  destruct (before (fst p) (fst q)); [reflexivity|].
  rewrite IH. apply perm_swap.
Qed.

Lemma isort_by_perm (l : list (Z * nat)) :
  Permutation (isort_by before l) l.
Proof.
  induction l as [|p l IH]; cbn; [reflexivity|].
  rewrite insert_by_perm. now constructor.
Qed.

Lemma insert_by_sorted (p : Z * nat) (l : list (Z * nat)) :
  Sorted key_le l -> Sorted key_le (insert_by before p l).
Proof.
  induction 1 as [|q l Hl IH Hq]; cbn.
  - repeat constructor.
  - destruct (before (fst p) (fst q)) eqn:E.
    + constructor; [now constructor|]. constructor.
      now apply before_true.
    + constructor; [exact IH|].
      destruct l as [|r l]; cbn.
      * constructor. now apply before_false.
      * destruct (before (fst p) (fst r)).
        -- constructor. now apply before_false.
        -- constructor. now inversion Hq.
Qed.

Lemma isort_by_sorted (l : list (Z * nat)) :
  Sorted key_le (isort_by before l).
Proof.
  induction l as [|p l IH]; cbn; [constructor|].
  now apply insert_by_sorted.
Qed.

End Insertion.

Lemma enumerate_from_spec (l : list Z) (s : nat) (v : Z) (i : nat) :
  In (v, i) (combine l (seq s (length l))) ->
  exists k, i = (s + k)%nat /\ nth_error l k = Some v.
Proof.
  revert s. induction l as [|a l IH]; intros s; cbn; [tauto|].
  intros [H|H].
  - inversion H; subst. exists 0%nat. split; [lia|reflexivity].
  - destruct (IH _ H) as (k & -> & Hk). exists (S k). split; [lia|exact Hk].
Qed.

Lemma enumerate_positions (keys : list Z) :
  map snd (enumerate keys) = seq 0 (length keys).
Proof.
  unfold enumerate.
  generalize 0%nat. induction keys as [|a l IH]; intros s; cbn;
    [reflexivity|]. now rewrite IH.
Qed.

Lemma select_enumerated (keys : list Z) (ps : list (Z * nat)) :
  Forall (fun p => nth_error keys (snd p) = Some (fst p)) ps ->
  select keys (map snd ps) = map fst ps.
Proof.
  induction 1 as [|p ps Hp _ IH]; [reflexivity|].
  cbn. rewrite Hp. cbn. f_equal. exact IH.
Qed.

Lemma Sorted_key_le_fst (ps : list (Z * nat)) :
  Sorted key_le ps -> Sorted Z.le (map fst ps).
Proof.
  induction 1 as [|p ps Hs IH Hp]; cbn; constructor; [exact IH|].
  destruct Hp; cbn; constructor. assumption.
Qed.

Lemma insertion_argsort_contract (before : Z -> Z -> bool) :
  (forall a b, before a b = true -> a <= b) ->
  (forall a b, before a b = false -> b <= a) ->
  argsort_contract (fun keys => map snd (isort_by before (enumerate keys))).
Proof.
  intros Ht Hf keys. split.
  - rewrite (isort_by_perm before (enumerate keys)).
    now rewrite enumerate_positions.
  - rewrite select_enumerated.
    + apply Sorted_key_le_fst. now apply isort_by_sorted.
    + apply Forall_forall. intros [v i] Hin.
      apply (Permutation_in _ (isort_by_perm before (enumerate keys))) in Hin.
      apply enumerate_from_spec in Hin. destruct Hin as (k & -> & Hk).
      exact Hk.
Qed.

Lemma stable_argsort_contract : argsort_contract stable_argsort.
Proof.
  apply insertion_argsort_contract; intros a b H; lia.
Qed.

Lemma reversing_argsort_contract : argsort_contract reversing_argsort.
Proof.
  apply insertion_argsort_contract; intros a b H; lia.
Qed.

(** ** Group-by: one row per key, keys ascending, totals preserved *)

Lemma filter_none {X : Type} (f : X -> bool) (l : list X) :
  (forall x, In x l -> f x = false) -> filter f l = [].
Proof.
  induction l as [|a l IH]; cbn; intros H; [reflexivity|].
  rewrite (H a) by now left. apply IH. intros x Hx. apply H. now right.
Qed.

Section GroupByFacts.

Context {K : Type}.
Variable cmp : K -> K -> comparison.
Hypothesis order : strict_order cmp.

Lemma same_key_eq (a b : K) : same_key cmp a b = true <-> a = b.
Proof.
  unfold same_key. rewrite <- (cmp_eq cmp order).
  destruct (cmp a b); split; congruence.
Qed.

Lemma bump_keys (k : K) (n : Z) (acc : list (K * Z)) (x : K) :
  In x (map fst (bump cmp k n acc)) <-> x = k \/ In x (map fst acc).
Proof.
  induction acc as [|[k' c] acc IH]; cbn.
  - intuition congruence.
  - destruct (cmp k k') eqn:E; cbn.
    + apply (cmp_eq cmp order) in E. subst k'. intuition congruence.
    + intuition congruence.
    + rewrite IH. intuition congruence.
Qed.

Lemma bump_sorted (k : K) (n : Z) (acc : list (K * Z)) :
  StronglySorted (precedes cmp) (map fst acc) ->
  StronglySorted (precedes cmp) (map fst (bump cmp k n acc)).
Proof.
  induction acc as [|[k' c] acc IH]; cbn; intros H.
  - repeat constructor.
  - inversion H as [|? ? Hs Hall]; subst.
    destruct (cmp k k') eqn:E; cbn.
    + constructor; assumption.
    + constructor; [exact H|]. constructor; [exact E|].
      eapply Forall_impl; [|exact Hall].
      intros y Hy. exact (cmp_trans cmp order _ _ _ E Hy).
    + constructor; [now apply IH|].
      apply Forall_forall. intros y Hy. apply bump_keys in Hy.
      destruct Hy as [->|Hy].
      * now apply (cmp_gt cmp order).
      * rewrite Forall_forall in Hall. now apply Hall.
Qed.

Lemma total_of_bump (x k : K) (n : Z) (acc : list (K * Z)) :
  total_of cmp x (bump cmp k n acc) = total_of cmp x ((k, n) :: acc).
Proof.
  unfold total_of.
  induction acc as [|[k' c] acc IH]; [reflexivity|].
  cbn [bump]. destruct (cmp k k') eqn:E.
  - apply (cmp_eq cmp order) in E. subst k'. cbn.
    destruct (same_key cmp x k); cbn; unfold sum_values; cbn; lia.
  - reflexivity.
  - cbn in *. destruct (same_key cmp x k'), (same_key cmp x k);
      cbn in *; unfold sum_values in *; cbn in *; lia.
Qed.

Lemma fold_bump_keys (rows acc : list (K * Z)) (x : K) :
  In x (map fst (fold_left (fun a r => bump cmp (fst r) (snd r) a) rows acc))
  <-> In x (map fst rows) \/ In x (map fst acc).
Proof.
  revert acc. induction rows as [|r rows IH]; intros acc; cbn.
  - tauto.
  - rewrite IH, bump_keys. intuition congruence.
Qed.

Lemma fold_bump_sorted (rows acc : list (K * Z)) :
  StronglySorted (precedes cmp) (map fst acc) ->
  StronglySorted (precedes cmp)
    (map fst (fold_left (fun a r => bump cmp (fst r) (snd r) a) rows acc)).
Proof.
  revert acc. induction rows as [|r rows IH]; intros acc H; cbn.
  - exact H.
  - apply IH. now apply bump_sorted.
Qed.

Lemma fold_bump_total (rows acc : list (K * Z)) (x : K) :
  total_of cmp x (fold_left (fun a r => bump cmp (fst r) (snd r) a) rows acc)
  = total_of cmp x rows + total_of cmp x acc.
Proof.
  revert acc. induction rows as [|[k n] rows IH]; intros acc; cbn [fold_left].
  - reflexivity.
  - rewrite IH, total_of_bump. unfold total_of. cbn.
    destruct (same_key cmp x k); cbn; unfold sum_values; cbn; lia.
Qed.

Lemma groupby_sum_keys (rows : list (K * Z)) (x : K) :
  In x (map fst (groupby_sum cmp rows)) <-> In x (map fst rows).
Proof.
  unfold groupby_sum. rewrite fold_bump_keys. cbn. tauto.
Qed.

Lemma groupby_sum_sorted (rows : list (K * Z)) :
  StronglySorted (precedes cmp) (map fst (groupby_sum cmp rows)).
Proof. apply fold_bump_sorted. constructor. Qed.

Lemma groupby_sum_total (rows : list (K * Z)) (x : K) :
  total_of cmp x (groupby_sum cmp rows) = total_of cmp x rows.
Proof.
  unfold groupby_sum. rewrite fold_bump_total. unfold total_of. cbn.
  unfold sum_values. cbn. lia.
Qed.

Lemma precedes_irrefl (a : K) : ~ precedes cmp a a.
Proof.
  unfold precedes. intros H.
  assert (cmp a a = Eq) by now apply (cmp_eq cmp order). congruence.
Qed.

(** In a frame with ascending keys the row of a key holds its total. *)
Lemma sorted_total_of (l : list (K * Z)) (k : K) (c : Z) :
  StronglySorted (precedes cmp) (map fst l) -> In (k, c) l -> total_of cmp k l = c.
Proof.
  unfold total_of.
  induction l as [|[k' c'] l IH]; cbn; intros Hs Hin; [tauto|].
  inversion Hs as [|? ? Hs' Hall]; subst.
  rewrite Forall_forall in Hall.
  destruct Hin as [Heq|Hin].
  - inversion Heq; subst.
    replace (same_key cmp k k) with true
      by (symmetry; now apply same_key_eq).
    cbn.
    rewrite (filter_none _ l); [cbn; unfold sum_values; cbn; lia|].
    intros [y d] Hy. cbn.
    destruct (same_key cmp k y) eqn:E; [|reflexivity].
    apply same_key_eq in E. subst y. exfalso.
    apply (precedes_irrefl k). apply Hall.
    now apply (in_map fst _ (k, d)).
  - destruct (same_key cmp k k') eqn:E.
    + apply same_key_eq in E. subst k'. exfalso.
      apply (precedes_irrefl k). apply Hall.
      now apply (in_map fst _ (k, c)).
    + now apply IH.
Qed.

Lemma sorted_keys_NoDup (l : list K) : StronglySorted (precedes cmp) l -> NoDup l.
Proof.
  induction 1 as [|a l Hs IH Hall]; constructor; [|exact IH].
  intros Hin. rewrite Forall_forall in Hall.
  exact (precedes_irrefl a (Hall _ Hin)).
Qed.

Lemma groupby_sum_row (rows : list (K * Z)) (k : K) (c : Z) :
  In (k, c) (groupby_sum cmp rows) -> c = total_of cmp k rows.
Proof.
  intros Hin. rewrite <- groupby_sum_total. symmetry.
  apply sorted_total_of; [apply groupby_sum_sorted|exact Hin].
Qed.

Lemma groupby_sum_NoDup (rows : list (K * Z)) :
  NoDup (map fst (groupby_sum cmp rows)).
Proof. apply sorted_keys_NoDup, groupby_sum_sorted. Qed.

Lemma total_of_ones (k : K) (keys : list K) :
  total_of cmp k (map (fun x => (x, 1)) keys)
  = Z.of_nat (length (filter (same_key cmp k) keys)).
Proof.
  unfold total_of.
  induction keys as [|a keys IH]; [reflexivity|].
  cbn [map filter fst]. destruct (same_key cmp k a); [|exact IH].
  cbn [map snd length]. unfold sum_values in *. cbn [fold_right].
  rewrite IH. lia.
Qed.

Lemma groupby_size_row (keys : list K) (k : K) (c : Z) :
  In (k, c) (groupby_size cmp keys) ->
  c = Z.of_nat (length (filter (same_key cmp k) keys)).
Proof.
  intros H. apply groupby_sum_row in H. now rewrite total_of_ones in H.
Qed.

Lemma groupby_size_keys (keys : list K) (x : K) :
  In x (map fst (groupby_size cmp keys)) <-> In x keys.
Proof.
  unfold groupby_size. rewrite groupby_sum_keys, map_map. cbn.
  now rewrite map_id.
Qed.

End GroupByFacts.

Lemma date_order : strict_order date_compare.
Proof.
  split; unfold date_compare.
  - intros [y m d] [y' m' d']; cbn.
    destruct (Z.compare_spec y y'), (Z.compare_spec m m'),
      (Z.compare_spec d d'); split; intros Hc;
      try discriminate; try (inversion Hc; lia); subst; reflexivity.
  - intros [y m d] [y' m' d']; cbn.
    destruct (Z.compare_spec y y'), (Z.compare_spec m m'),
      (Z.compare_spec d d'), (Z.compare_spec y' y), (Z.compare_spec m' m),
      (Z.compare_spec d' d); intros Hc; try discriminate; try lia;
      reflexivity.
  - intros [y m d] [y' m' d'] [y2 m2 d2]; cbn.
    destruct (Z.compare_spec y y'), (Z.compare_spec m m'),
      (Z.compare_spec d d'); intros Hc; try discriminate;
      destruct (Z.compare_spec y' y2), (Z.compare_spec m' m2),
        (Z.compare_spec d' d2); intros Hc'; try discriminate;
      destruct (Z.compare_spec y y2), (Z.compare_spec m m2),
        (Z.compare_spec d d2); try lia; reflexivity.
Qed.

Lemma period_order : strict_order period_compare.
Proof.
  split; unfold period_compare.
  - intros [y m] [y' m']; cbn.
    destruct (Z.compare_spec y y'), (Z.compare_spec m m'); split; intros Hc;
      try discriminate; try (inversion Hc; lia); subst; reflexivity.
  - intros [y m] [y' m']; cbn.
    destruct (Z.compare_spec y y'), (Z.compare_spec m m'),
      (Z.compare_spec y' y), (Z.compare_spec m' m);
      intros Hc; try discriminate; try lia; reflexivity.
  - intros [y m] [y' m'] [y2 m2]; cbn.
    destruct (Z.compare_spec y y'), (Z.compare_spec m m');
      intros Hc; try discriminate;
      destruct (Z.compare_spec y' y2), (Z.compare_spec m' m2);
      intros Hc'; try discriminate;
      destruct (Z.compare_spec y y2), (Z.compare_spec m m2);
      try lia; reflexivity.
Qed.

Lemma season_order : strict_order season_compare.
Proof.
  split.
  - intros [] []; cbn; split; intros H; congruence.
  - intros [] []; cbn; intros H; congruence.
  - intros [] [] []; cbn; intros H H'; congruence.
Qed.

(** ** The daily roll-up and its peak *)

Lemma daily_dates_ascending (df : list Trip) :
  StronglySorted (precedes date_compare) (map fst (daily df)).
Proof. apply (groupby_sum_sorted date_compare date_order). Qed.

Lemma daily_dates (df : list Trip) (d : Timestamp) :
  In d (map fst (daily df)) <-> exists t, In t df /\ date t = d.
Proof.
  unfold daily. rewrite (groupby_size_keys date_compare date_order).
  rewrite in_map_iff. firstorder.
Qed.

Lemma daily_row (df : list Trip) (d : Timestamp) (c : Z) :
  In (d, c) (daily df) ->
  c = Z.of_nat (length (filter (fun t => same_key date_compare d (date t)) df))
  /\ 0 < c.
Proof.
  intros Hin.
  assert (Hc := groupby_size_row date_compare date_order _ _ _ Hin).
  assert (Hd : In d (map fst (daily df)))
    by now apply (in_map fst _ (d, c)).
  apply daily_dates in Hd. destruct Hd as (t & Ht & Hdt).
  assert (E : forall l,
             length (filter (same_key date_compare d) (map date l))
             = length (filter (fun t => same_key date_compare d (date t)) l)).
  { induction l as [|a l IH]; cbn; [reflexivity|].
    destruct (same_key date_compare d (date a)); cbn; now rewrite IH. }
  rewrite E in Hc. split; [exact Hc|].
  assert (Hin' : In t (filter (fun t => same_key date_compare d (date t)) df)).
  { apply filter_In. split; [exact Ht|].
    now apply (same_key_eq date_compare date_order). }
  destruct (filter _ df); [contradiction|]. cbn in Hc. lia.
Qed.

Lemma sorted_positions {X : Type} (R : X -> X -> Prop) (l : list X) :
  StronglySorted R l ->
  forall i j a b, (i < j)%nat ->
    nth_error l i = Some a -> nth_error l j = Some b -> R a b.
Proof.
  induction 1 as [|x l Hs IH Hall]; intros i j a b Hij Hi Hj.
  - destruct i; discriminate.
  - destruct j as [|j]; [lia|]. cbn in Hj.
    destruct i as [|i]; cbn in Hi.
    + inversion Hi; subst. rewrite Forall_forall in Hall.
      apply Hall. eapply nth_error_In; eassumption.
    + apply (IH i j); [lia|assumption..].
Qed.

Lemma argmax_from_first_maximum (l pre : list Z) (best_i : nat) (best : Z) :
  first_maximum pre best_i best ->
  exists m,
    first_maximum (pre ++ l) (argmax_from best_i best (length pre) l) m.
Proof.
  revert pre best_i best.
  induction l as [|x l IH]; intros pre bi b (Hn & Hall & Hlt).
  - exists b. rewrite app_nil_r. cbn. now repeat split.
  - assert (Hbi : (bi < length pre)%nat)
      by (apply nth_error_Some; congruence).
    cbn [argmax_from].
    replace (pre ++ x :: l) with ((pre ++ [x]) ++ l)
      by now rewrite <- app_assoc.
    replace (S (length pre)) with (length (pre ++ [x]))
      by (rewrite length_app; cbn; lia).
    destruct (Z.ltb_spec b x) as [Hbx|Hbx].
    + apply IH. repeat split.
      * rewrite nth_error_app2 by lia. rewrite Nat.sub_diag. reflexivity.
      * apply Forall_app. split.
        -- eapply Forall_impl; [|exact Hall]. cbn. intros; lia.
        -- constructor; [lia|constructor].
      * intros k y Hk Hy. rewrite nth_error_app1 in Hy by lia.
        apply nth_error_In in Hy. rewrite Forall_forall in Hall.
        specialize (Hall _ Hy). cbn in Hall. lia.
    + apply IH. repeat split.
      * rewrite nth_error_app1 by lia. exact Hn.
      * apply Forall_app. split; [exact Hall|].
        constructor; [lia|constructor].
      * intros k y Hk Hy. rewrite nth_error_app1 in Hy by lia.
        now apply (Hlt k).
Qed.

Lemma idxmax_first_maximum (l : list Z) :
  l <> [] -> exists r m, idxmax l = Ok r /\ first_maximum l r m.
Proof.
  destruct l as [|x l]; [congruence|]. intros _.
  destruct (argmax_from_first_maximum l [x] 0%nat x) as (m & Hm).
  - repeat split; [constructor; [lia|constructor]|]. intros k y Hk. lia.
  - exists (argmax_from 0 x 1 l), m. split; [reflexivity|exact Hm].
Qed.

Lemma daily_nonempty (df : list Trip) : df <> [] -> daily df <> [].
Proof.
  destruct df as [|t df]; [congruence|]. intros _ H.
  assert (Hin : In (date t) (map fst (daily (t :: df)))).
  { apply daily_dates. exists t. split; [now left|reflexivity]. }
  rewrite H in Hin. exact Hin.
Qed.

(** C7. [peak_row] is a row of the daily aggregates whose trip count is the
    maximum, and among the dates that share this maximum it is the earliest:
    no other date with the same count comes before it. *)
Theorem peak_row_earliest_maximum (df : list Trip) :
  df <> [] ->
  exists d c,
    peak_row df = Ok (d, c) /\
    In (d, c) (daily df) /\
    (forall d' c', In (d', c') (daily df) -> c' <= c) /\
    (forall d', In (d', c) (daily df) -> d' <> d ->
                date_compare d d' = Lt).
Proof.
  intros Hne. apply daily_nonempty in Hne.
  assert (Hne' : map snd (daily df) <> [])
    by (destruct (daily df); [congruence|discriminate]).
  destruct (idxmax_first_maximum _ Hne') as (r & m & Hr & Hn & Hall & Hlt).
  rewrite nth_error_map in Hn.
  destruct (nth_error (daily df) r) as [[d c]|] eqn:Hrow; [|discriminate].
  cbn in Hn. inversion Hn; subst c. clear Hn.
  exists d, m. unfold peak_row. rewrite Hr. cbn. unfold loc. rewrite Hrow.
  split; [reflexivity|]. split; [eapply nth_error_In; eassumption|].
  split.
  - intros d' c' Hin. rewrite Forall_forall in Hall.
    apply (Hall c'). now apply (in_map snd _ (d', c')).
  - intros d' Hin Hneq.
    destruct (In_nth_error _ _ Hin) as (k & Hk).
    destruct (Nat.lt_trichotomy k r) as [Hkr|[Hkr|Hkr]].
    + exfalso. specialize (Hlt k m Hkr).
      rewrite nth_error_map, Hk in Hlt. specialize (Hlt eq_refl). lia.
    + subst k. rewrite Hrow in Hk. congruence.
    + apply (sorted_positions _ _ (daily_dates_ascending df) r k);
        [exact Hkr| |]; rewrite nth_error_map.
      * now rewrite Hrow.
      * now rewrite Hk.
Qed.

Lemma peak_row_earliest_maximum_witness :
  exists d c,
    peak_row [trip_on (mkDate 2022 6 10); trip_on (mkDate 2022 1 5);
              trip_on (mkDate 2022 3 1); trip_on (mkDate 2022 6 10);
              trip_on (mkDate 2022 1 5)] = Ok (d, c).
Proof.
  destruct (peak_row_earliest_maximum
              [trip_on (mkDate 2022 6 10); trip_on (mkDate 2022 1 5);
               trip_on (mkDate 2022 3 1); trip_on (mkDate 2022 6 10);
               trip_on (mkDate 2022 1 5)]) as (d & c & H & _).
  - discriminate.
  - exists d, c. exact H.
Defined.

(** ** The seasonal roll-up *)

Lemma by_season_keys (df : list Trip) (s : Season) :
  In s (map fst (groupby_size season_compare
                   (map (fun t => season_of (date t)) df)))
  <-> exists t, In t df /\ season_of (date t) = s.
Proof.
  rewrite (groupby_size_keys season_compare season_order).
  rewrite in_map_iff. firstorder.
Qed.

Lemma by_season_row (df : list Trip) (s : Season) (c : Z) :
  In (s, c) (groupby_size season_compare
               (map (fun t => season_of (date t)) df)) ->
  c = trips_in_season s df /\ 0 < c.
Proof.
  intros Hin.
  assert (Hc := groupby_size_row season_compare season_order _ _ _ Hin).
  assert (Hs : In s (map fst (groupby_size season_compare
                                (map (fun t => season_of (date t)) df))))
    by now apply (in_map fst _ (s, c)).
  apply by_season_keys in Hs. destruct Hs as (t & Ht & Hst).
  assert (E : forall l,
             length (filter (same_key season_compare s)
                       (map (fun t => season_of (date t)) l))
             = length (filter (fun t => same_key season_compare s
                                          (season_of (date t))) l)).
  { induction l as [|a l IH]; cbn; [reflexivity|].
    destruct (same_key season_compare s (season_of (date a))); cbn;
      now rewrite IH. }
  rewrite E in Hc. fold (trips_in_season s df) in Hc.
  split; [exact Hc|].
  assert (Hin' : In t (filter (fun t => same_key season_compare s
                                          (season_of (date t))) df)).
  { apply filter_In. split; [exact Ht|].
    now apply (same_key_eq season_compare season_order). }
  unfold trips_in_season in Hc.
  destruct (filter _ df); [contradiction|]. cbn in Hc. lia.
Qed.

(** C2, as the code has it.  Under the sort's contract the seasonal
    aggregates hold one entry for each season in which at least one trip
    falls, and no entry for a season without trips; each entry carries the
    number of trips of its season, which is positive; and the entries are
    sorted descending by count. *)
Theorem seasonal_observed_seasons_descending
    (argsort : list Z -> list nat) (df : list Trip) :
  argsort_contract argsort ->
  (forall s, In s (map fst (seasonal argsort df))
             <-> exists t, In t df /\ season_of (date t) = s) /\
  NoDup (map fst (seasonal argsort df)) /\
  (forall s c, In (s, c) (seasonal argsort df) ->
               c = trips_in_season s df /\ 0 < c) /\
  descending (map snd (seasonal argsort df)).
Proof.
  intros contract. unfold seasonal.
  set (G := groupby_size season_compare (map (fun t => season_of (date t)) df)).
  assert (HP := sort_values_desc_perm argsort contract snd G).
  split; [|split; [|split]].
  - intros s. split; intros H.
    + apply by_season_keys.
      eapply Permutation_in; [|exact H]. now apply Permutation_map.
    + apply by_season_keys in H.
      eapply Permutation_in; [|exact H].
      apply Permutation_map. now symmetry.
  - eapply Permutation_NoDup.
    + apply Permutation_map. symmetry. exact HP.
    + apply (groupby_sum_NoDup season_compare season_order).
  - intros s c H. apply by_season_row.
    eapply Permutation_in; eassumption.
  - now apply sort_values_desc_sorted.
Qed.

Lemma seasonal_observed_seasons_descending_witness :
  In Summer (map fst (seasonal stable_argsort scenario_a)) /\
  ~ In Spring (map fst (seasonal stable_argsort scenario_a)).
Proof.
  destruct (seasonal_observed_seasons_descending stable_argsort scenario_a
              stable_argsort_contract) as (Hiff & _).
  split.
  - apply Hiff. exists (trip_on (mkDate 2022 6 10)).
    split; [cbn; tauto|reflexivity].
  - intros H. apply Hiff in H. destruct H as (t & Ht & Hs).
    cbn in Ht. destruct Ht as [<-|[<-|[<-|[]]]]; discriminate Hs.
Defined.

(** C2 as stated fails: a sample whose only trip falls in January has the
    single seasonal entry Winter, so Spring is missing from it. *)
Lemma seasonal_lacks_seasons_without_trips :
  ~ (forall (argsort : list Z -> list nat) (df : list Trip),
       argsort_contract argsort ->
       (forall s, In s (map fst (seasonal argsort df))) /\
       descending (map snd (seasonal argsort df))).
Proof.
  intros H.
  destruct (H stable_argsort [trip_on (mkDate 2022 1 5)]
              stable_argsort_contract) as [Hall _].
  specialize (Hall Spring). cbn in Hall.
  destruct Hall as [Hw|[]]. discriminate.
Qed.

(** ** The monthly roll-up *)

Lemma monthly_months_ascending (df : list Trip) :
  StronglySorted (precedes period_compare) (map fst (monthly df)).
Proof. apply (groupby_sum_sorted period_compare period_order). Qed.

Example monthly_two_years :
  map snd (monthly two_years)
  = [1; 2; 3; 1; 2; 3; 1; 2; 3; 1; 2; 3; 1; 2; 3; 1; 2; 3; 1; 2; 3; 1; 2; 3].
Proof. reflexivity. Qed.

(** C5 as stated fails on [two_years], 24 months with 1, 2, 3, 1, 2, 3, ...
    trips.  Sorted with numpy's introsort, the monthly aggregates descend by
    trip count, but not every month comes before the later months with the
    same count: with the scalar code December 2022 is first, before June
    2021, each with 3 trips. *)
Lemma monthly_ties_not_chronological_on_two_years :
  descending (map snd (monthly_sorted aquicksort two_years)) /\
  ~ ties_chronological (monthly_sorted aquicksort two_years).
Proof.
  split.
  - vm_compute. repeat constructor; discriminate.
  - intros Hties.
    specialize (Hties 0%nat 1%nat (2022, 12, 3) (2021, 6, 3)).
    assert (E : Gt = Lt) by (apply Hties; [lia|reflexivity..]).
    discriminate E.
Qed.

(** *** A stable sort keeps ties in frame order *)

Lemma select_nth_error {X : Type} (l : list X) (ix : list nat) (t : nat) :
  Forall (fun i => (i < length l)%nat) ix ->
  nth_error (select l ix) t =
  match nth_error ix t with
  | Some i => nth_error l i
  | None => None
  end.
Proof.
  intros H. revert t. induction H as [|i ix Hi _ IH]; intros t.
  - now destruct t.
  - rewrite select_cons. cbn [select flat_map].
    destruct (nth_error l i) as [x|] eqn:E.
    + destruct t as [|t]; cbn; [now rewrite E|apply IH].
    + apply nth_error_None in E. lia.
Qed.

Lemma select_length {X : Type} (l : list X) (ix : list nat) :
  Forall (fun i => (i < length l)%nat) ix ->
  length (select l ix) = length ix.
Proof.
  induction 1 as [|i ix Hi _ IH]; [reflexivity|].
  rewrite select_cons, length_app, IH. cbn.
  destruct (nth_error l i) eqn:E; [reflexivity|].
  apply nth_error_None in E. lia.
Qed.

Lemma sort_values_desc_unfold (argsort : list Z -> list nat) {X : Type}
    (by_ : X -> Z) (frame : list X) :
  sort_values_desc argsort by_ frame
  = rev (select (rev frame) (argsort (map by_ (rev frame)))).
Proof.
  unfold sort_values_desc, nargsort_desc.
  rewrite select_rev, length_map, select_through_rev. now rewrite map_rev.
Qed.

Lemma sort_values_desc_stable (argsort : list Z -> list nat) {X : Type}
    (by_ : X -> Z) (frame : list X) :
  argsort_contract argsort -> argsort_stable argsort ->
  forall i j a b, (i < j)%nat ->
    nth_error (sort_values_desc argsort by_ frame) i = Some a ->
    nth_error (sort_values_desc argsort by_ frame) j = Some b ->
    by_ a = by_ b ->
    exists ia ib, (ia < ib)%nat /\
      nth_error frame ia = Some a /\ nth_error frame ib = Some b.
Proof.
  intros contract stable i j a b Hij Hi Hj Hab.
  rewrite sort_values_desc_unfold in Hi, Hj.
  set (keys := map by_ (rev frame)) in *.
  set (P := argsort keys) in *.
  destruct (contract keys) as [Hperm _]. fold P in Hperm.
  assert (Hn : length keys = length frame)
    by (unfold keys; now rewrite length_map, length_rev).
  rewrite Hn in Hperm.
  assert (Hrange : Forall (fun i => (i < length (rev frame))%nat) P).
  { apply Forall_forall. intros x Hx. rewrite length_rev.
    apply (Permutation_in _ Hperm) in Hx. apply in_seq in Hx. lia. }
  assert (HlenP : length P = length frame)
    by (rewrite (Permutation_length Hperm); apply length_seq).
  assert (Hnodup : NoDup P)
    by (apply (Permutation_NoDup (Permutation_sym Hperm)), seq_NoDup).
  assert (Hlen : length (select (rev frame) P) = length frame)
    by now rewrite select_length.
  rewrite nth_error_rev, Hlen in Hi, Hj.
  destruct (Nat.ltb_spec i (length frame)) as [Hi'|]; [|discriminate].
  destruct (Nat.ltb_spec j (length frame)) as [Hj'|]; [|discriminate].
  rewrite select_nth_error in Hi, Hj by assumption.
  destruct (nth_error P (length frame - S i)) as [v|] eqn:Ev; [|discriminate].
  destruct (nth_error P (length frame - S j)) as [u|] eqn:Eu; [|discriminate].
  assert (Hv : (v < length frame)%nat).
  { apply nth_error_In in Ev. rewrite Forall_forall in Hrange.
    specialize (Hrange _ Ev). now rewrite length_rev in Hrange. }
  assert (Hu : (u < length frame)%nat).
  { apply nth_error_In in Eu. rewrite Forall_forall in Hrange.
    specialize (Hrange _ Eu). now rewrite length_rev in Hrange. }
  assert (Hkv : nth_error keys v = Some (by_ a))
    by (unfold keys; now rewrite nth_error_map, Hi).
  assert (Hku : nth_error keys u = Some (by_ b))
    by (unfold keys; now rewrite nth_error_map, Hj).
  assert (Huv : (u < v)%nat).
  { destruct (Nat.lt_trichotomy u v) as [H|[H|H]]; [exact H| |]; exfalso.
    - subst v.
      assert (length frame - S i = length frame - S j)%nat.
      { apply (proj1 (NoDup_nth_error P) Hnodup); [lia|congruence]. }
      lia.
    - destruct (stable keys v u _ _ Hkv Hku Hab H)
        as (p & q & Hp & Hq & Hpq).
      assert (p = length frame - S i)%nat.
      { apply (proj1 (NoDup_nth_error P) Hnodup).
        - apply nth_error_Some. fold P in Hp. congruence.
        - fold P in Hp. congruence. }
      assert (q = length frame - S j)%nat.
      { apply (proj1 (NoDup_nth_error P) Hnodup).
        - apply nth_error_Some. fold P in Hq. congruence.
        - fold P in Hq. congruence. }
      lia. }
  rewrite nth_error_rev in Hi, Hj.
  destruct (Nat.ltb_spec v (length frame)) as [_|]; [|lia].
  destruct (Nat.ltb_spec u (length frame)) as [_|]; [|lia].
  exists (length frame - S v)%nat, (length frame - S u)%nat.
  split; [lia|]. now split.
Qed.

(** *** The insertion sort that places a key before its equals is stable *)

Lemma insert_leb_keeps_order (p : Z * nat) (l : list (Z * nat)) :
  StronglySorted key_then_position l ->
  Forall (fun q => (snd p < snd q)%nat) l ->
  StronglySorted key_then_position (insert_by Z.leb p l).
Proof.
  induction 1 as [|q l Hs IH Hq]; intros Hpos; cbn.
  - repeat constructor.
  - inversion Hpos as [|? ? Hpq Hpl]; subst.
    destruct (Z.leb_spec (fst p) (fst q)) as [Hle|Hlt].
    + constructor; [now constructor|].
      constructor.
      * unfold key_then_position. lia.
      * rewrite Forall_forall in *. intros x Hx.
        specialize (Hq _ Hx). specialize (Hpl _ Hx).
        unfold key_then_position in *. lia.
    + constructor; [now apply IH|].
      apply Forall_forall. intros x Hx.
      apply (Permutation_in _ (insert_by_perm Z.leb p l)) in Hx.
      destruct Hx as [<-|Hx].
      * unfold key_then_position. lia.
      * rewrite Forall_forall in Hq. now apply Hq.
Qed.

Lemma isort_leb_keeps_order (l : list Z) (s : nat) :
  StronglySorted key_then_position
    (isort_by Z.leb (combine l (seq s (length l)))).
Proof.
  revert s. induction l as [|a l IH]; intros s; cbn; [constructor|].
  apply insert_leb_keeps_order; [apply IH|].
  apply Forall_forall. intros [v i] Hin. cbn.
  apply (Permutation_in _ (isort_by_perm Z.leb _)) in Hin.
  apply enumerate_from_spec in Hin. destruct Hin as (k & -> & _). lia.
Qed.

Lemma enumerate_In (keys : list Z) (i : nat) (k : Z) :
  nth_error keys i = Some k -> In (k, i) (enumerate keys).
Proof.
  unfold enumerate. intros H.
  assert (G : forall l s j, nth_error l j = Some k ->
                In (k, (s + j)%nat) (combine l (seq s (length l)))).
  { induction l as [|a l IH]; intros s j Hj; [now destruct j|].
    destruct j as [|j]; cbn in *.
    - inversion Hj; subst. left. f_equal. lia.
    - right. replace (s + S j)%nat with (S s + j)%nat by lia. now apply IH. }
  exact (G keys 0%nat i H).
Qed.

Lemma stable_argsort_stable : argsort_stable stable_argsort.
Proof.
  intros keys i j ki kj Hi Hj Hk Hij. subst kj. unfold stable_argsort.
  set (srt := isort_by Z.leb (enumerate keys)).
  assert (Hs : StronglySorted key_then_position srt)
    by apply (isort_leb_keeps_order keys 0).
  assert (Ii : In (ki, i) srt).
  { apply (Permutation_in _ (Permutation_sym (isort_by_perm Z.leb _))).
    now apply enumerate_In. }
  assert (Ij : In (ki, j) srt).
  { apply (Permutation_in _ (Permutation_sym (isort_by_perm Z.leb _))).
    now apply enumerate_In. }
  destruct (In_nth_error _ _ Ii) as (p & Hp).
  destruct (In_nth_error _ _ Ij) as (q & Hq).
  exists p, q. rewrite !nth_error_map, Hp, Hq. repeat split.
  destruct (Nat.lt_trichotomy p q) as [H|[H|H]]; [exact H| |]; exfalso.
  - subst q. rewrite Hp in Hq. inversion Hq. lia.
  - assert (Hlt := sorted_positions _ _ Hs q p _ _ H Hq Hp).
    unfold key_then_position in Hlt. cbn in Hlt. lia.
Qed.

Lemma positions_sorted {X : Type} (R : X -> X -> Prop) (l : list X) :
  (forall i j a b, (i < j)%nat ->
     nth_error l i = Some a -> nth_error l j = Some b -> R a b) ->
  StronglySorted R l.
Proof.
  induction l as [|x l IH]; intros H; constructor.
  - apply IH. intros i j a b Hij Hi Hj.
    apply (H (S i) (S j)); [lia|assumption..].
  - apply Forall_forall. intros y Hy.
    destruct (In_nth_error _ _ Hy) as (j & Hj).
    apply (H 0%nat (S j)); [lia|reflexivity|exact Hj].
Qed.

(** A list has one arrangement at most that is sorted by a relation which
    never holds both ways. *)
Lemma sorted_arrangement_unique {X : Type} (R : X -> X -> Prop) :
  (forall a b, R a b -> R b a -> False) ->
  forall l l', StronglySorted R l -> StronglySorted R l' ->
               Permutation l l' -> l = l'.
Proof.
  intros asym. induction l as [|a t IH]; intros l' Hs Hs' HP.
  - apply Permutation_nil in HP. now subst.
  - destruct l' as [|a' t'].
    + apply Permutation_sym, Permutation_nil in HP. discriminate.
    + destruct (StronglySorted_inv Hs) as [Hst Hall].
      destruct (StronglySorted_inv Hs') as [Hst' Hall'].
      rewrite Forall_forall in Hall, Hall'.
      assert (E : a = a').
      { assert (Hin : In a (a' :: t'))
          by (apply (Permutation_in _ HP); now left).
        assert (Hin' : In a' (a :: t))
          by (apply (Permutation_in _ (Permutation_sym HP)); now left).
        destruct Hin as [E|Hin]; [now symmetry|].
        destruct Hin' as [E|Hin']; [exact E|].
        exfalso. apply (asym a a'); [now apply Hall|now apply Hall']. }
      subst a'. f_equal. apply IH; [exact Hst|exact Hst'|].
      now apply Permutation_cons_inv in HP.
Qed.

Lemma busier_then_earlier_asym (a b : Period * Z) :
  busier_then_earlier a b -> busier_then_earlier b a -> False.
Proof.
  intros [H|[H Hc]] [H'|[H' Hc']]; try lia.
  assert (Ht := cmp_trans _ period_order _ _ _ Hc Hc').
  exact (precedes_irrefl period_compare period_order (fst a) Ht).
Qed.

Lemma descending_ties_sorted (l : list (Period * Z)) :
  descending (map snd l) -> ties_chronological l ->
  StronglySorted busier_then_earlier l.
Proof.
  intros Hd Ht. apply positions_sorted. intros i j a b Hij Hi Hj.
  assert (Hge : snd a >= snd b).
  { apply (sorted_positions _ _ Hd i j); [exact Hij| |];
      rewrite nth_error_map; [now rewrite Hi|now rewrite Hj]. }
  destruct (Z.eq_dec (snd a) (snd b)) as [E|Hne].
  - right. split; [exact E|]. now apply (Ht i j).
  - left. lia.
Qed.

Section MonthlySorted.

Variable argsort : list Z -> list nat.
Hypothesis contract : argsort_contract argsort.

Lemma stable_sort_keeps_months_chronological (df : list Trip) :
  argsort_stable argsort -> ties_chronological (monthly_sorted argsort df).
Proof.
  intros stable i j a b Hij Hi Hj Hab.
  destruct (sort_values_desc_stable argsort snd (monthly df) contract
              stable i j a b Hij Hi Hj Hab) as (ia & ib & Hlt & Ha & Hb).
  apply (sorted_positions _ _ (monthly_months_ascending df) ia ib);
    [exact Hlt| |]; rewrite nth_error_map.
  - now rewrite Ha.
  - now rewrite Hb.
Qed.

End MonthlySorted.

(** C5, as the code has it.  Under the sort's contract the monthly
    aggregates in [monthly_sorted] are the chronological roll-up rearranged,
    every month once, sorted descending by trip count.  Months with equal
    counts come earlier month first when the library sort is stable, and
    for a given sample exactly when the sort arranges the months as a stable
    sort does; the contract alone does not fix their order. *)
Theorem monthly_sorted_descending
    (argsort : list Z -> list nat) (df : list Trip) :
  argsort_contract argsort ->
  descending (map snd (monthly_sorted argsort df)) /\
  Permutation (monthly_sorted argsort df) (monthly df) /\
  NoDup (map fst (monthly_sorted argsort df)) /\
  (argsort_stable argsort -> ties_chronological (monthly_sorted argsort df)) /\
  (ties_chronological (monthly_sorted argsort df) <->
   monthly_sorted argsort df = monthly_sorted stable_argsort df).
Proof.
  intros contract.
  assert (HP := sort_values_desc_perm argsort contract snd (monthly df)).
  assert (Hd := sort_values_desc_sorted argsort contract snd (monthly df)).
  assert (HP' := sort_values_desc_perm stable_argsort
                   stable_argsort_contract snd (monthly df)).
  assert (Hd' := sort_values_desc_sorted stable_argsort
                   stable_argsort_contract snd (monthly df)).
  assert (Ht' := stable_sort_keeps_months_chronological stable_argsort
                   stable_argsort_contract df stable_argsort_stable).
  fold (monthly_sorted argsort df) in HP, Hd.
  fold (monthly_sorted stable_argsort df) in HP', Hd'.
  split; [exact Hd|]. split; [exact HP|]. split; [|split].
  - eapply Permutation_NoDup.
    + apply Permutation_map. symmetry. exact HP.
    + apply (groupby_sum_NoDup period_compare period_order).
  - now apply stable_sort_keeps_months_chronological.
  - split.
    + intros Ht.
      apply (sorted_arrangement_unique busier_then_earlier
               busier_then_earlier_asym).
      * now apply descending_ties_sorted.
      * now apply descending_ties_sorted.
      * now rewrite HP, HP'.
    + intros E. now rewrite E.
Qed.

Lemma monthly_sorted_descending_witness :
  descending (map snd (monthly_sorted stable_argsort
                         [trip_on (mkDate 2022 1 3); trip_on (mkDate 2022 2 3);
                          trip_on (mkDate 2022 3 3); trip_on (mkDate 2022 3 4)]))
  /\ ties_chronological
       (monthly_sorted stable_argsort
          [trip_on (mkDate 2022 1 3); trip_on (mkDate 2022 2 3);
           trip_on (mkDate 2022 3 3); trip_on (mkDate 2022 3 4)]).
Proof.
  destruct (monthly_sorted_descending stable_argsort
              [trip_on (mkDate 2022 1 3); trip_on (mkDate 2022 2 3);
               trip_on (mkDate 2022 3 3); trip_on (mkDate 2022 3 4)]
              stable_argsort_contract) as (Hd & _ & _ & Ht & _).
  split; [exact Hd|exact (Ht stable_argsort_stable)].
Defined.

(** ** The weekend split *)

Lemma sum_trips_filter_nonneg {X : Type} (f : X * Z -> bool)
    (rows : list (X * Z)) :
  Forall (fun r => 0 < snd r) rows -> 0 <= sum_trips (filter f rows).
Proof.
  unfold sum_trips. induction 1 as [|r rows Hr _ IH]; cbn; [lia|].
  destruct (f r); cbn; lia.
Qed.

Lemma daily_counts_positive (df : list Trip) :
  Forall (fun r => 0 < snd r) (daily df).
Proof.
  apply Forall_forall. intros [d c] Hin. cbn.
  now destruct (daily_row df d c Hin).
Qed.

Lemma weekend_total_nonneg (df : list Trip) : 0 <= weekend_total df.
Proof. apply sum_trips_filter_nonneg, daily_counts_positive. Qed.

Lemma weekday_total_nonneg (df : list Trip) : 0 <= weekday_total df.
Proof. apply sum_trips_filter_nonneg, daily_counts_positive. Qed.

Lemma quotient_zero (a b : Z) :
  0 < b -> ((inject_Z a / inject_Z b == 0)%Q <-> a = 0).
Proof.
  intros Hb. destruct b as [|p|p]; try lia.
  unfold Qeq, Qdiv, Qmult, Qinv, inject_Z. cbn. lia.
Qed.

(** C4, as the code has it.  [weekend_share] never raises.  It is [0.0]
    when [weekend_total + weekday_total] is 0 and the quotient
    [weekend_total / (weekend_total + weekday_total)] otherwise; as a
    consequence it is [0.0] exactly when [weekend_total] is 0, which
    includes samples whose trips all fall on weekdays. *)
Theorem weekend_share_guarded (df : list Trip) :
  exists q,
    weekend_share df = Ok q /\
    (weekend_total df + weekday_total df = 0 -> (q == 0)%Q) /\
    (weekend_total df + weekday_total df <> 0 ->
     (q == inject_Z (weekend_total df)
           / inject_Z (weekend_total df + weekday_total df))%Q) /\
    ((q == 0)%Q <-> weekend_total df = 0).
Proof.
  assert (Hwe := weekend_total_nonneg df).
  assert (Hwd := weekday_total_nonneg df).
  unfold weekend_share, truediv.
  destruct (Z.gtb_spec (weekend_total df + weekday_total df) 0) as [Hpos|Hz].
  - destruct (Z.eqb_spec (weekend_total df + weekday_total df) 0) as [E|_];
      [lia|].
    eexists. split; [reflexivity|]. split; [lia|]. split.
    + intros _. reflexivity.
    + apply quotient_zero. lia.
  - exists 0%Q. split; [reflexivity|]. split; [reflexivity|]. split.
    + lia.
    + split; [lia|reflexivity].
Qed.

Lemma weekend_share_guarded_witness :
  exists q,
    weekend_share [trip_on (mkDate 2022 1 1); trip_on (mkDate 2022 1 3)]
    = Ok q /\
    (q == inject_Z 1 / inject_Z 2)%Q.
Proof.
  destruct (weekend_share_guarded
              [trip_on (mkDate 2022 1 1); trip_on (mkDate 2022 1 3)])
    as (q & Hq & _ & Hquot & _).
  exists q. split; [exact Hq|]. apply Hquot. vm_compute. discriminate.
Defined.

(** C4 as stated fails: one trip on Monday 2022-01-03 gives the totals 0 and
    1, so the share is [0.0] although the denominator is 1. *)
Lemma weekend_share_zero_with_trips :
  ~ (forall (df : list Trip) (q : Q),
       weekend_share df = Ok q ->
       ((q == 0)%Q <-> weekend_total df + weekday_total df = 0) /\
       (weekend_total df + weekday_total df <> 0 ->
        (q == inject_Z (weekend_total df)
              / inject_Z (weekend_total df + weekday_total df))%Q)).
Proof.
  intros H.
  destruct (H [trip_on (mkDate 2022 1 3)] (0 # 1)%Q eq_refl) as [[Hz _] _].
  specialize (Hz (Qeq_refl _)). discriminate Hz.
Qed.

(** ** The empty sample and the unrecognised ranking table *)

(** C6: the code on the empty trip table, the file with its header only.
    The minimum of its [date] column is [nan], so [.date()] on line 82
    raises [AttributeError]: the date range is not produced and neither is
    the statistics bundle, whatever the sort, the library and the ranking
    table. *)
Theorem empty_sample_raises
    (argsort : list Z -> list nat) (lib : Library) (top20 : DataFrame) :
  date_min [] = Err AttributeError /\
  quick_stats argsort lib [] top20 = Err AttributeError.
Proof. split; reflexivity. Qed.

(** C1: the code on a ranking table with one row whose columns [station]
    and [n] match neither the exact labels nor the patterns.  The labels are
    left as they are, the frame is not empty, and the selection on line 112
    raises [KeyError]. *)
Theorem unrecognised_columns_raise
    (argsort : list Z -> list nat) (lib : Library) :
  normalize_columns ["station"; "n"] = ["station"; "n"] /\
  empty unrecognised_ranking = false /\
  quick_stats argsort lib scenario_a unrecognised_ranking = Err KeyError.
Proof. repeat split. Qed.

(** The same for every frame that is not empty and lacks a label. *)
Lemma top20_prep_missing_label
    (argsort : list Z -> list nat) (lib : Library) (top20 : DataFrame) :
  empty top20 = false ->
  has_label "start_station_name" (columns top20) = false \/
  has_label "value" (columns top20) = false ->
  top20_prep argsort lib top20 = Err KeyError.
Proof.
  intros He Hl. unfold top20_prep, valid_rows, getitem. rewrite He. cbn.
  destruct Hl as [-> | ->]; [reflexivity|].
  now destruct (has_label "start_station_name" (columns top20)).
Qed.

(** ** Pretty numbers *)

Lemma strip_commas_keep (a : ascii) (l : list ascii) :
  is_comma a = false -> strip_commas (a :: l) = a :: strip_commas l.
Proof. intros H. unfold strip_commas. cbn. now rewrite H. Qed.

Lemma group3_strip_bounded (n : nat) (l : list ascii) :
  (length l <= n)%nat ->
  Forall (fun c => is_comma c = false) l ->
  strip_commas (group3 l) = l.
Proof.
  revert l. induction n as [|n IH]; intros l Hlen Hl.
  { destruct l; [reflexivity|cbn in Hlen; lia]. }
  destruct l as [|a [|b [|c [|d l]]]].
  - reflexivity.
  - apply Forall_cons_iff in Hl. destruct Hl as (Ha & _).
    cbn. now rewrite Ha.
  - rewrite !Forall_cons_iff in Hl. destruct Hl as (Ha & Hb & _).
    cbn. now rewrite Ha, Hb.
  - rewrite !Forall_cons_iff in Hl. destruct Hl as (Ha & Hb & Hc & _).
    cbn. now rewrite Ha, Hb, Hc.
  - apply Forall_cons_iff in Hl. destruct Hl as (Ha & Hl).
    apply Forall_cons_iff in Hl. destruct Hl as (Hb & Hl).
    apply Forall_cons_iff in Hl. destruct Hl as (Hc & Hl3).
    change (group3 (a :: b :: c :: d :: l))
      with (a :: b :: c :: ","%char :: group3 (d :: l)).
    rewrite !strip_commas_keep by assumption.
    change (strip_commas (","%char :: group3 (d :: l)))
      with (strip_commas (group3 (d :: l))).
    do 3 f_equal. apply IH; [cbn in *; lia|exact Hl3].
Qed.

Lemma group3_strip (l : list ascii) :
  Forall (fun c => is_comma c = false) l -> strip_commas (group3 l) = l.
Proof. apply (group3_strip_bounded (length l)). lia. Qed.

Lemma digits_no_comma (u : Decimal.uint) :
  Forall (fun c => is_comma c = false)
    (list_ascii_of_string (NilEmpty.string_of_uint u)).
Proof. induction u; cbn; constructor; try reflexivity; assumption. Qed.

Lemma decimal_no_comma (n : N) :
  Forall (fun c => is_comma c = false) (list_ascii_of_string (decimal n)).
Proof.
  unfold decimal, NilZero.string_of_uint.
  destruct (N.to_uint n); try apply digits_no_comma.
  cbn. constructor; [reflexivity|constructor].
Qed.

Lemma comma_grouped_digits (x : Z) :
  0 <= x ->
  strip_commas (list_ascii_of_string (comma_grouped x))
  = list_ascii_of_string (decimal (Z.to_N x)).
Proof.
  intros Hx. unfold comma_grouped.
  destruct (Z.ltb_spec x 0) as [|_]; [lia|].
  replace (Z.abs_N x) with (Z.to_N x) by (destruct x; [reflexivity..|lia]).
  rewrite list_ascii_of_string_of_list_ascii.
  unfold strip_commas. rewrite filter_rev. fold (strip_commas
    (group3 (rev (list_ascii_of_string (decimal (Z.to_N x)))))).
  rewrite group3_strip; [apply rev_involutive|].
  apply Forall_rev, decimal_no_comma.
Qed.



(** ** Normalising the ranking table's labels *)

Lemma rename_loop_closed (p : string -> bool) (new : string)
    (cs acc : list string) :
  fold_left (fun a c => if p c then rename c new a else a) cs acc
  = map (fun l => if existsb (fun c => p c && String.eqb l c) cs
                  then new else l) acc.
Proof.
  revert acc. induction cs as [|c cs IH]; intros acc; cbn [fold_left].
  - cbn. symmetry. apply map_id.
  - rewrite IH. destruct (p c) eqn:Hp.
    + unfold rename. rewrite map_map. apply map_ext. intros l. cbn.
      rewrite Hp. cbn. destruct (String.eqb l c) eqn:E.
      * now destruct (existsb _ cs).
      * reflexivity.
    + apply map_ext. intros l. cbn. now rewrite Hp.
Qed.

(** The loop renames exactly the labels that satisfy its test. *)
Lemma rename_matching_closed (p : string -> bool) (new : string)
    (cols : list string) :
  rename_matching p new cols = map (fun l => if p l then new else l) cols.
Proof.
  unfold rename_matching. rewrite rename_loop_closed.
  apply map_ext_in. intros l Hl.
  destruct (p l) eqn:Hp.
  - replace (existsb (fun c => p c && String.eqb l c) cols) with true;
      [reflexivity|].
    symmetry. apply existsb_exists. exists l. split; [exact Hl|].
    now rewrite Hp, String.eqb_refl.
  - replace (existsb (fun c => p c && String.eqb l c) cols) with false;
      [reflexivity|].
    symmetry. apply not_true_is_false. intros H.
    apply existsb_exists in H. destruct H as (c & _ & Hc).
    apply andb_prop in Hc. destruct Hc as [Hpc Heq].
    apply String.eqb_eq in Heq. congruence.
Qed.

Lemma value_synonym_not_station (c : string) :
  is_value_col c = true -> is_station_col c = false.
Proof.
  unfold is_value_col, is_station_col. cbn [existsb].
  rewrite !orb_true_iff, !String.eqb_eq.
  intros [H|[H|[H|[H|H]]]]; try discriminate; rewrite H; reflexivity.
Qed.

Lemma normalize_station_keeps_value_labels (cols : list string) :
  has_label "value" (normalize_station cols) = has_label "value" cols.
Proof.
  unfold normalize_station.
  destruct (has_label "start_station_name" cols); [reflexivity|].
  cbn [negb]. rewrite rename_matching_closed. unfold has_label.
  induction cols as [|c cols IH]; [reflexivity|].
  cbn [map existsb]. rewrite IH. f_equal.
  destruct (is_station_col c) eqn:E; [|reflexivity].
  transitivity false; [reflexivity|].
  symmetry. apply String.eqb_neq. intros <-. discriminate E.
Qed.

(** C10.  When no label is exactly [start_station_name], every column whose
    lowercased label contains both [start] and [station] carries the label
    [start_station_name] after the normalisation, not only the first one, so
    two such columns leave the frame with a duplicated label.  Likewise,
    when no label is exactly [value], every column whose lowercased label is
    one of the synonyms carries the label [value] afterwards. *)
Theorem normalize_renames_every_match (cols : list string) :
  (has_label "start_station_name" cols = false ->
   (forall i c, nth_error cols i = Some c -> is_station_col c = true ->
      nth_error (normalize_columns cols) i = Some "start_station_name") /\
   (forall i j ci cj, i <> j ->
      nth_error cols i = Some ci -> is_station_col ci = true ->
      nth_error cols j = Some cj -> is_station_col cj = true ->
      ~ NoDup (normalize_columns cols))) /\
  (has_label "value" cols = false ->
   forall i c, nth_error cols i = Some c -> is_value_col c = true ->
     nth_error (normalize_columns cols) i = Some "value").
Proof.
  assert (Hstation :
    has_label "start_station_name" cols = false ->
    forall i c, nth_error cols i = Some c -> is_station_col c = true ->
      nth_error (normalize_columns cols) i = Some "start_station_name").
  { intros Hno i c Hi Hc.
    unfold normalize_columns, normalize_value.
    assert (Hs : nth_error (normalize_station cols) i
                 = Some "start_station_name").
    { unfold normalize_station. rewrite Hno. cbn [negb].
      rewrite rename_matching_closed, nth_error_map, Hi. cbn [option_map].
      now rewrite Hc. }
    destruct (has_label "value" (normalize_station cols)); cbn [negb];
      [exact Hs|].
    rewrite rename_matching_closed, nth_error_map, Hs. reflexivity. }
  split.
  - intros Hno. split; [now apply Hstation|].
    intros i j ci cj Hij Hi Hci Hj Hcj Hnd.
    apply Hij. apply (proj1 (NoDup_nth_error _) Hnd).
    + apply nth_error_Some.
      rewrite (Hstation Hno i ci Hi Hci). discriminate.
    + rewrite (Hstation Hno i ci Hi Hci).
      now rewrite (Hstation Hno j cj Hj Hcj).
  - intros Hno i c Hi Hc.
    unfold normalize_columns, normalize_value.
    rewrite normalize_station_keeps_value_labels, Hno. cbn [negb].
    rewrite rename_matching_closed, nth_error_map.
    assert (Hs : nth_error (normalize_station cols) i = Some c).
    { unfold normalize_station.
      destruct (has_label "start_station_name" cols); [exact Hi|].
      cbn [negb].
      rewrite rename_matching_closed, nth_error_map, Hi. cbn [option_map].
      now rewrite (value_synonym_not_station c Hc). }
    rewrite Hs. cbn [option_map]. now rewrite Hc.
Qed.

Lemma normalize_renames_every_match_witness :
  normalize_columns
    ["Start Station"; "START_station_id"; "Trips"; "COUNT"]
  = ["start_station_name"; "start_station_name"; "value"; "value"] /\
  nth_error (normalize_columns
               ["Start Station"; "START_station_id"; "Trips"; "COUNT"]) 1
  = Some "start_station_name" /\
  nth_error (normalize_columns
               ["Start Station"; "START_station_id"; "Trips"; "COUNT"]) 3
  = Some "value".
Proof.
  split; [reflexivity|].
  destruct (normalize_renames_every_match
              ["Start Station"; "START_station_id"; "Trips"; "COUNT"])
    as [Hs Hv].
  split.
  - apply (proj1 (Hs eq_refl) 1%nat "START_station_id"); reflexivity.
  - apply (Hv eq_refl 3%nat "COUNT"); reflexivity.
Defined.

(** ** The top-20 preparation and the picks *)

Lemma sum_values_perm (l l' : list Z) :
  Permutation l l' -> sum_values l = sum_values l'.
Proof.
  unfold sum_values. induction 1; cbn; lia.
Qed.

Lemma sum_values_nonneg (l : list Z) :
  Forall (fun v => 0 <= v) l -> 0 <= sum_values l.
Proof. unfold sum_values. induction 1; cbn; lia. Qed.

Lemma descending_head_positive (x : Z) (l : list Z) :
  descending (x :: l) -> 0 < sum_values (x :: l) -> 0 < x.
Proof.
  intros Hd Hs. inversion Hd as [|? ? _ Hall]; subst.
  destruct (Z.lt_ge_cases 0 x) as [|Hx]; [assumption|exfalso].
  assert (Hle : sum_values l <= 0).
  { clear Hs Hd. unfold sum_values.
    induction Hall as [|y l Hy _ IH]; cbn; lia. }
  unfold sum_values in *. cbn in Hs. lia.
Qed.

Lemma wrap64_small (z : Z) :
  - int64_bound <= z < int64_bound -> wrap64 z = z.
Proof.
  unfold wrap64, int64_bound. intros H. rewrite Z.mod_small; lia.
Qed.

Lemma wrap64_range (z : Z) : - int64_bound <= wrap64 z < int64_bound.
Proof.
  unfold wrap64, int64_bound.
  assert (H := Z.mod_pos_bound (z + 9223372036854775808)
                 (2 * 9223372036854775808)).
  lia.
Qed.

(** Wrapping keeps the value modulo 2^64. *)
Lemma wrap64_congruent (z : Z) :
  exists k, wrap64 z = z + k * (2 * int64_bound).
Proof.
  unfold wrap64, int64_bound.
  exists (- ((z + 9223372036854775808) / (2 * 9223372036854775808))).
  assert (H := Z.div_mod (z + 9223372036854775808)
                 (2 * 9223372036854775808)).
  lia.
Qed.

Lemma machine_sum_exact (a : arithmetic) (l : list Z) :
  a <> Other -> 0 <= sum_values l < int64_bound ->
  machine_sum a l = sum_values l.
Proof.
  intros Ha H. destruct a; cbn [machine_sum]; try reflexivity.
  apply wrap64_small. unfold int64_bound in *. lia.
Qed.

Lemma machine_add_exact (a : arithmetic) (x y : Z) :
  a <> Other -> 0 <= x + y < int64_bound -> machine_add a x y = x + y.
Proof.
  intros Ha H. destruct a; cbn [machine_add]; try reflexivity.
  apply wrap64_small. unfold int64_bound in *. lia.
Qed.

Lemma machine_sum_positive (a : arithmetic) (l : list Z) :
  0 < machine_sum a l -> sum_values l <> 0.
Proof.
  intros H E.
  destruct a; cbn [machine_sum] in H; rewrite E in H;
    try (vm_compute in H; discriminate); lia.
Qed.

Lemma machine_sum_perm (a : arithmetic) (l l' : list Z) :
  Permutation l l' -> machine_sum a l = machine_sum a l'.
Proof.
  intros H. unfold machine_sum. now rewrite (sum_values_perm _ _ H).
Qed.

Lemma numeric_rows_nonneg (cols : list string) (rs : list (list cell)) :
  Forall (fun r => 0 <= snd r) (numeric_rows cols rs).
Proof.
  unfold numeric_rows. induction rs as [|r rs IH]; cbn [flat_map];
    [constructor|].
  destruct (getcol cols r "value") as [|[| |n] [|]]; cbn [app];
    try exact IH.
  constructor; [cbn [snd]; lia|exact IH].
Qed.

Lemma valid_rows_nonneg (top20 : DataFrame) (rows0 : list (pick * Z)) :
  valid_rows top20 = Ok (Numeric rows0) ->
  Forall (fun r => 0 <= snd r) rows0.
Proof.
  unfold valid_rows.
  destruct (getitem _ top20) as [sel|]; cbn [bind]; [|discriminate].
  destruct (_ =? 1)%nat; [|discriminate].
  destruct (existsb _ _); intros H; inversion H; subst.
  apply numeric_rows_nonneg.
Qed.

Lemma empty_valid_rows (top20 : DataFrame) (rows0 : list (pick * Z)) :
  empty top20 = true -> valid_rows top20 = Ok (Numeric rows0) -> rows0 = [].
Proof.
  destruct top20 as [cols rs]. unfold empty, valid_rows, getitem.
  cbn [rows columns].
  destruct rs as [|r rs]; intros He.
  - destruct (forallb _ _); cbn; [|discriminate].
    destruct (_ =? 1)%nat; cbn; congruence.
  - destruct cols; [|discriminate]. cbn. discriminate.
Qed.

Lemma value_arithmetic_exact (top20 : DataFrame) (values : list Z) :
  value_arithmetic top20 values = Exact ->
  sum_values values <= float_exact_max.
Proof.
  unfold value_arithmetic, float_exact_max.
  destruct (inferred_dtype (value_column top20)); try discriminate;
    try (destruct (Z.leb_spec (sum_values values) 9007199254740992);
         [lia|discriminate]).
  destruct (Z.eqb_spec (sum_values values) 0); [lia|discriminate].
Qed.

(** A total of 0 is computed in every column of counts. *)
Lemma value_arithmetic_zero (top20 : DataFrame) (values : list Z) :
  sum_values values = 0 ->
  value_arithmetic top20 values <> Other /\
  machine_sum (value_arithmetic top20 values) values = 0.
Proof.
  intros H. unfold value_arithmetic.
  destruct (inferred_dtype (value_column top20)).
  - split; [discriminate|]. cbn [machine_sum]. now rewrite H.
  - rewrite H. change (0 <=? float_exact_max) with true. cbv iota.
    split; [discriminate|exact H].
  - rewrite H. change (0 <=? float_exact_max) with true. cbv iota.
    split; [discriminate|exact H].
  - rewrite H. change (0 =? 0) with true. cbv iota.
    split; [discriminate|exact H].
Qed.

Lemma top20_arithmetic_numeric (top20 : DataFrame)
    (rows0 : list (pick * Z)) :
  valid_rows top20 = Ok (Numeric rows0) ->
  top20_arithmetic top20 = value_arithmetic top20 (map snd rows0).
Proof. intros H. unfold top20_arithmetic. now rewrite H. Qed.

Section Top20Facts.

Variable argsort : list Z -> list nat.
Variable lib : Library.
Hypothesis contract : argsort_contract argsort.

(** The preparation on a table of counts within the modelled
    arithmetic. *)
Lemma top20_prep_unfold (top20 : DataFrame) (rows0 : list (pick * Z)) :
  valid_rows top20 = Ok (Numeric rows0) ->
  top20_arithmetic top20 <> Other ->
  exists ranked0,
    Permutation ranked0 rows0 /\
    descending (map snd ranked0) /\
    top20_prep argsort lib top20
    = Ok (map (fun r =>
                 mkRank (fst r) (snd r)
                   (if machine_sum (top20_arithmetic top20) (map snd rows0)
                       >? 0
                    then (inject_Z (snd r)
                          / inject_Z (machine_sum (top20_arithmetic top20)
                                        (map snd rows0)))%Q
                    else 0%Q)) ranked0,
          machine_sum (top20_arithmetic top20) (map snd rows0)).
Proof.
  intros Hv Ha. rewrite (top20_arithmetic_numeric _ _ Hv) in *.
  unfold top20_prep.
  destruct (empty top20) eqn:He; cbn [negb].
  - apply (empty_valid_rows _ _ He) in Hv. subst rows0.
    exists []. split; [constructor|]. split; [constructor|].
    cbn [map]. now rewrite (proj2 (value_arithmetic_zero top20 [] eq_refl)).
  - rewrite Hv. cbn [bind].
    exists (sort_values_desc argsort snd rows0).
    assert (HP : Permutation (sort_values_desc argsort snd rows0) rows0)
      by now apply sort_values_desc_perm.
    split; [exact HP|]. split; [now apply sort_values_desc_sorted|].
    destruct (value_arithmetic top20 (map snd rows0)); [| |congruence];
      now rewrite (machine_sum_perm _ _ _ (Permutation_map snd HP)).
Qed.

End Top20Facts.

Lemma handy_picks_defaults (lib : Library) (a : arithmetic)
    (top20 : list RankRow) (top20_total : Z) :
  (length top20 < 5)%nat \/ top20_total <= 0 ->
  handy_picks lib a top20 top20_total = Ok default_picks.
Proof.
  intros H. unfold handy_picks.
  destruct (Z.gtb_spec top20_total 0), (Nat.leb_spec 5 (length top20));
    cbn [andb]; try reflexivity. lia.
Qed.

Lemma handy_picks_computed (lib : Library) (a : arithmetic)
    (r0 r1 r2 : RankRow) (rest : list RankRow) (top20_total : Z) :
  a <> Other ->
  (5 <= length (r0 :: r1 :: r2 :: rest))%nat -> 0 < top20_total ->
  handy_picks lib a (r0 :: r1 :: r2 :: rest) top20_total
  = Ok (mkPicks (start_station_name r0) (value r0)
          (start_station_name r1) (value r1)
          (start_station_name r2) (value r2)
          (share_of_top20 r0)
          (inject_Z (machine_add a (machine_add a (value r0) (value r1))
                       (value r2)) / inject_Z top20_total)
          (inject_Z (machine_sum a
                       (map value (firstn 5 (r0 :: r1 :: r2 :: rest))))
           / inject_Z top20_total)).
Proof.
  intros Ha Hlen Hpos. unfold handy_picks, truediv.
  destruct (Z.gtb_spec top20_total 0); [|lia].
  destruct (Nat.leb_spec 5 (length (r0 :: r1 :: r2 :: rest))); [|lia].
  destruct (Z.eqb_spec top20_total 0); [lia|].
  cbn [andb iloc nth_error bind].
  destruct a; [reflexivity|reflexivity|congruence].
Qed.

Lemma default_picks_is_default : is_default default_picks.
Proof. repeat split. Qed.

(** C3, as the code has it.  For a ranking table that has both columns,
    with counts as values, in exact or [int64] arithmetic (an [int64]
    column, or a [float64] or [uint64] column whose valid values add up to
    at most 2^53): the ranking is the valid rows by descending value and
    [top20_total] is the sum of their values as the machine computes it,
    the sum itself when that is below 2^63 and the sum wrapped around
    otherwise.  The picks are computed when the table has at least 5 valid rows
    and [top20_total] is positive, and only then; otherwise, and so in
    particular with fewer than 5 valid rows, they are the defaults.  The
    computed picks are the stations and values of the three first rows of
    the ranking, the share of the first row, and the machine sums of the 3
    and of the 5 first values divided by [top20_total]. *)
Theorem picks_computed_iff_five_rows_and_trips
    (argsort : list Z -> list nat) (lib : Library) (top20 : DataFrame)
    (rows0 : list (pick * Z)) :
  argsort_contract argsort ->
  valid_rows (normalize top20) = Ok (Numeric rows0) ->
  top20_arithmetic (normalize top20) <> Other ->
  exists ranked top20_total picks,
    top20_prep argsort lib (normalize top20) = Ok (ranked, top20_total) /\
    top20_total
    = machine_sum (top20_arithmetic (normalize top20)) (map snd rows0) /\
    (sum_values (map snd rows0) < int64_bound ->
     top20_total = sum_values (map snd rows0)) /\
    Permutation (map (fun r => (start_station_name r, value r)) ranked)
      rows0 /\
    descending (map value ranked) /\
    top20_picks argsort lib top20 = Ok picks /\
    ((length rows0 < 5)%nat \/ top20_total <= 0 -> picks = default_picks) /\
    (is_default picks <-> (length rows0 < 5)%nat \/ top20_total <= 0) /\
    ((5 <= length rows0)%nat /\ 0 < top20_total ->
     exists r0 r1 r2 rest,
       ranked = r0 :: r1 :: r2 :: rest /\
       share_of_top20 r0
       = (inject_Z (value r0) / inject_Z top20_total)%Q /\
       picks
       = mkPicks (start_station_name r0) (value r0)
           (start_station_name r1) (value r1)
           (start_station_name r2) (value r2)
           (share_of_top20 r0)
           (inject_Z (machine_add (top20_arithmetic (normalize top20))
                        (machine_add (top20_arithmetic (normalize top20))
                           (value r0) (value r1)) (value r2))
            / inject_Z top20_total)
           (inject_Z (machine_sum (top20_arithmetic (normalize top20))
                        (map value (firstn 5 ranked)))
            / inject_Z top20_total)).
Proof.
  intros contract Hv Ha. unfold top20_picks.
  assert (Hnn := valid_rows_nonneg _ _ Hv).
  destruct (top20_prep_unfold argsort lib contract _ _ Hv Ha)
    as (ranked0 & HP & Hd & Hprep).
  set (a := top20_arithmetic (normalize top20)) in *.
  set (T := machine_sum a (map snd rows0)) in *.
  set (ranked := map _ ranked0) in Hprep.
  assert (Hlen : length ranked = length rows0).
  { unfold ranked. rewrite length_map. now apply Permutation_length. }
  assert (Hvals : map value ranked = map snd ranked0).
  { unfold ranked. rewrite map_map. reflexivity. }
  assert (Hpairs : map (fun r => (start_station_name r, value r)) ranked
                   = ranked0).
  { unfold ranked. rewrite map_map. cbn [start_station_name value].
    erewrite map_ext; [apply map_id|]. now intros [n v]. }
  assert (Hsmall : sum_values (map snd rows0) < int64_bound ->
                   T = sum_values (map snd rows0)).
  { intros Hlt. apply machine_sum_exact; [exact Ha|].
    split; [|exact Hlt]. apply sum_values_nonneg.
    apply Forall_map. exact Hnn. }
  rewrite Hprep. cbn [bind fst snd].
  destruct (Nat.lt_ge_cases (length rows0) 5) as [Hfew|Hfive];
    [|destruct (Z.lt_ge_cases 0 T) as [Hpos|Hz]].
  - exists ranked, T, default_picks.
    split; [reflexivity|]. split; [reflexivity|]. split; [exact Hsmall|].
    split; [now rewrite Hpairs|]. split; [now rewrite Hvals|].
    split; [apply handy_picks_defaults; lia|]. split; [reflexivity|].
    split; [|lia].
    split; [now left|intros _; apply default_picks_is_default].
  - destruct ranked as [|r0 [|r1 [|r2 rest]]] eqn:E;
      cbn [length] in Hlen; try lia.
    eexists _, T, _.
    split; [reflexivity|]. split; [reflexivity|]. split; [exact Hsmall|].
    split; [now rewrite Hpairs|]. split; [now rewrite Hvals|].
    split; [apply handy_picks_computed; [exact Ha|cbn [length]; lia|
                                         exact Hpos]|].
    split; [lia|]. split.
    + split; [|lia]. intros (_ & Hval & _). cbn [t1_val] in Hval.
      exfalso.
      assert (Hne := machine_sum_positive a _ Hpos).
      assert (Hd' : descending (map value (r0 :: r1 :: r2 :: rest)))
        by now rewrite Hvals.
      assert (Hsum : sum_values (map value (r0 :: r1 :: r2 :: rest))
                     = sum_values (map snd rows0)).
      { rewrite Hvals. apply sum_values_perm. now apply Permutation_map. }
      assert (H0 : 0 <= sum_values (map snd rows0))
        by (apply sum_values_nonneg, Forall_map; exact Hnn).
      assert (Hhead : 0 < value r0).
      { apply (descending_head_positive _ (map value (r1 :: r2 :: rest)));
          [exact Hd'|].
        change (0 < sum_values (map value (r0 :: r1 :: r2 :: rest))).
        rewrite Hsum. lia. }
      lia.
    + intros _. exists r0, r1, r2, rest.
      split; [reflexivity|]. split; [|reflexivity].
      assert (Hin : In r0 ranked) by (rewrite E; now left).
      unfold ranked in Hin. apply in_map_iff in Hin.
      destruct Hin as (p & <- & _). cbn [share_of_top20 value].
      now destruct (Z.gtb_spec T 0); [|lia].
  - exists ranked, T, default_picks.
    split; [reflexivity|]. split; [reflexivity|]. split; [exact Hsmall|].
    split; [now rewrite Hpairs|]. split; [now rewrite Hvals|].
    split; [apply handy_picks_defaults; lia|]. split; [reflexivity|].
    split; [|lia].
    split; [now right|intros _; apply default_picks_is_default].
Qed.

Lemma picks_computed_iff_five_rows_and_trips_witness :
  exists picks,
    top20_picks stable_argsort refusing_library six_busy_stations
    = Ok picks /\
    t1_name picks = Scalar (Str "B") /\ t1_val picks = 9 /\
    ~ is_default picks.
Proof.
  destruct (picks_computed_iff_five_rows_and_trips stable_argsort
              refusing_library six_busy_stations
              [(Scalar (Str "A"), 3); (Scalar (Str "B"), 9);
               (Scalar (Str "D"), 1); (Scalar (Str "E"), 3);
               (Scalar (Str "F"), 4)]
              stable_argsort_contract eq_refl)
    as (ranked & total & p & Hprep & _ & _ & _ & _ & Hp & _ & Hiff & _).
  - vm_compute. discriminate.
  - exists p. split; [exact Hp|].
    vm_compute in Hp. inversion Hp; subst p. cbn [t1_name t1_val].
    split; [reflexivity|]. split; [reflexivity|].
    intros (_ & Hval & _). cbn in Hval. discriminate Hval.
Defined.

(** C3 as stated fails: five valid rows whose values are all 0 leave the
    picks at their defaults, so having at least five valid rows does not
    suffice for the picks to be computed. *)
Lemma five_valid_rows_do_not_suffice :
  ~ (forall (argsort : list Z -> list nat) (lib : Library)
            (top20 : DataFrame) (rows0 : list (pick * Z)) (picks : Picks),
       argsort_contract argsort ->
       valid_rows (normalize top20) = Ok (Numeric rows0) ->
       top20_picks argsort lib top20 = Ok picks ->
       (is_default picks <-> (length rows0 < 5)%nat)).
Proof.
  intros H.
  assert (Hiff := H stable_argsort refusing_library five_idle_stations _
                    default_picks stable_argsort_contract eq_refl eq_refl).
  apply proj1 in Hiff. specialize (Hiff default_picks_is_default).
  cbn in Hiff. lia.
Qed.

(** C9.  With 5 or more valid rows in the ranking table, if the values of
    the valid rows sum to 0 then the top-1 name, value and share and the
    top-3 and top-5 shares are the defaults: the empty string, 0 and 0.0. *)
Theorem zero_total_keeps_defaults
    (argsort : list Z -> list nat) (lib : Library) (top20 : DataFrame)
    (rows0 : list (pick * Z)) :
  argsort_contract argsort ->
  valid_rows (normalize top20) = Ok (Numeric rows0) ->
  (5 <= length rows0)%nat ->
  sum_values (map snd rows0) = 0 ->
  top20_picks argsort lib top20 = Ok default_picks /\
  is_default default_picks.
Proof.
  intros contract Hv _ Hz. unfold top20_picks.
  destruct (value_arithmetic_zero (normalize top20) _ Hz) as [Ha Hsum].
  rewrite <- (top20_arithmetic_numeric _ _ Hv) in Ha, Hsum.
  destruct (top20_prep_unfold argsort lib contract _ _ Hv Ha)
    as (ranked & _ & _ & ->).
  cbn [bind fst snd]. split; [|apply default_picks_is_default].
  apply handy_picks_defaults. right. rewrite Hsum. lia.
Qed.

Lemma zero_total_keeps_defaults_witness :
  top20_picks reversing_argsort refusing_library six_rows_one_missing
  = Ok default_picks.
Proof.
  apply (zero_total_keeps_defaults reversing_argsort refusing_library
           six_rows_one_missing
           [(Scalar (Str "Grove St PATH"), 0);
            (Scalar (Str "Hoboken Terminal"), 0);
            (Scalar (Str "Newport Pkwy"), 0); (Scalar (Str "Sip Ave"), 0);
            (Scalar (Str "Hamilton Park"), 0)]
           reversing_argsort_contract eq_refl).
  - cbn. lia.
  - reflexivity.
Defined.

(** * Further properties of the roll-ups *)

(** ** Group-by keeps every filtered total *)

Lemma sum_values_app (a b : list Z) :
  sum_values (a ++ b) = sum_values a + sum_values b.
Proof.
  unfold sum_values. induction a as [|x a IH]; cbn; [reflexivity|].
  rewrite IH. lia.
Qed.

Section GroupByTotals.

Context {K : Type}.
Variable cmp : K -> K -> comparison.
Hypothesis order : strict_order cmp.

Lemma sum_where_cons (f : K -> bool) (k : K) (n : Z) (rows : list (K * Z)) :
  sum_where f ((k, n) :: rows)
  = (if f k then n else 0) + sum_where f rows.
Proof.
  unfold sum_where. cbn. destruct (f k); cbn; unfold sum_values; cbn; lia.
Qed.

Lemma sum_where_bump (f : K -> bool) (k : K) (n : Z) (acc : list (K * Z)) :
  sum_where f (bump cmp k n acc) = sum_where f ((k, n) :: acc).
Proof.
  induction acc as [|[k' c] acc IH]; [reflexivity|].
  cbn [bump]. destruct (cmp k k') eqn:E.
  - apply (cmp_eq cmp order) in E. subst k'.
    rewrite !sum_where_cons. destruct (f k); lia.
  - reflexivity.
  - rewrite sum_where_cons, IH, !sum_where_cons. lia.
Qed.

Lemma sum_where_fold_bump (f : K -> bool) (rows acc : list (K * Z)) :
  sum_where f (fold_left (fun a r => bump cmp (fst r) (snd r) a) rows acc)
  = sum_where f rows + sum_where f acc.
Proof.
  revert acc. induction rows as [|[k n] rows IH]; intros acc; cbn [fold_left].
  - unfold sum_where at 2. cbn. unfold sum_values. cbn. lia.
  - rewrite IH, sum_where_bump, !sum_where_cons. cbn [fst snd]. lia.
Qed.

Lemma groupby_sum_where (f : K -> bool) (rows : list (K * Z)) :
  sum_where f (groupby_sum cmp rows) = sum_where f rows.
Proof.
  unfold groupby_sum. rewrite sum_where_fold_bump.
  unfold sum_where at 2. cbn. unfold sum_values. cbn. lia.
Qed.

Lemma sum_where_ones (f : K -> bool) (keys : list K) :
  sum_where f (map (fun k => (k, 1)) keys)
  = Z.of_nat (length (filter f keys)).
Proof.
  induction keys as [|k keys IH]; [reflexivity|].
  cbn [map]. rewrite sum_where_cons, IH. cbn [filter].
  destruct (f k); cbn [length]; lia.
Qed.

Lemma groupby_size_where (f : K -> bool) (keys : list K) :
  sum_where f (groupby_size cmp keys) = Z.of_nat (length (filter f keys)).
Proof.
  unfold groupby_size. now rewrite groupby_sum_where, sum_where_ones.
Qed.

End GroupByTotals.

Lemma sum_where_all {K : Type} (rows : list (K * Z)) :
  sum_where (fun _ => true) rows = sum_trips rows.
Proof.
  unfold sum_where, sum_trips, sum_values.
  induction rows as [|r rows IH]; cbn; [reflexivity|]. now rewrite IH.
Qed.

Lemma sum_where_split {K : Type} (f : K -> bool) (rows : list (K * Z)) :
  sum_where f rows + sum_where (fun k => negb (f k)) rows = sum_trips rows.
Proof.
  unfold sum_where, sum_trips, sum_values.
  induction rows as [|r rows IH]; cbn; [reflexivity|].
  destruct (f (fst r)); cbn; lia.
Qed.

Lemma filter_map_length {X Y : Type} (g : X -> Y) (f : Y -> bool)
    (l : list X) :
  length (filter f (map g l)) = length (filter (fun x => f (g x)) l).
Proof.
  induction l as [|a l IH]; cbn; [reflexivity|].
  destruct (f (g a)); cbn; now rewrite IH.
Qed.

(** The daily counts of the dates that pass [f] add up to the number of
    trips on those dates. *)
Lemma daily_where (f : Timestamp -> bool) (df : list Trip) :
  sum_where f (daily df) = trips_where f df.
Proof.
  unfold daily, trips_where.
  rewrite (groupby_size_where date_compare date_order).
  now rewrite filter_map_length.
Qed.

Lemma sample_total_all (df : list Trip) :
  trips_where (fun _ => true) df = sample_total df.
Proof.
  unfold trips_where, sample_total.
  replace (filter (fun t => (fun _ : Timestamp => true) (date t)) df) with df;
    [reflexivity|].
  induction df as [|t df IH]; cbn; [reflexivity|]. now rewrite <- IH.
Qed.

(** X1.  The daily aggregates hold one row per date with a trip, dates
    ascending; the row of a date carries the number of trips on that date,
    and the counts add up to [sample_total]. *)
Theorem daily_counts_partition_sample (df : list Trip) :
  StronglySorted (precedes date_compare) (map fst (daily df)) /\
  (forall d, In d (map fst (daily df)) <-> exists t, In t df /\ date t = d) /\
  (forall d c, In (d, c) (daily df) ->
     c = trips_where (same_key date_compare d) df /\ 0 < c) /\
  sum_trips (daily df) = sample_total df.
Proof.
  split; [apply daily_dates_ascending|].
  split; [apply daily_dates|].
  split; [apply daily_row|].
  now rewrite <- sum_where_all, daily_where, sample_total_all.
Qed.

(** X2.  [weekend_total] is the number of trips on Saturdays and Sundays,
    [weekday_total] the number of trips on the other days, and together they
    are [sample_total]. *)
Theorem weekend_weekday_split (df : list Trip) :
  weekend_total df = trips_where is_weekend df /\
  weekday_total df = trips_where (fun d => negb (is_weekend d)) df /\
  weekend_total df + weekday_total df = sample_total df.
Proof.
  assert (Hwe : weekend_total df = sum_where is_weekend (daily df))
    by reflexivity.
  assert (Hwd : weekday_total df
                = sum_where (fun d => negb (is_weekend d)) (daily df))
    by reflexivity.
  split; [now rewrite Hwe, daily_where|].
  split; [now rewrite Hwd, daily_where|].
  rewrite Hwe, Hwd, sum_where_split.
  now rewrite <- sum_where_all, daily_where, sample_total_all.
Qed.

Lemma sum_where_map_key {K K' : Type} (g : K -> K') (f : K' -> bool)
    (rows : list (K * Z)) :
  sum_where f (map (fun r => (g (fst r), snd r)) rows)
  = sum_where (fun k => f (g k)) rows.
Proof.
  unfold sum_where.
  induction rows as [|r rows IH]; cbn; [reflexivity|].
  destruct (f (g (fst r))); cbn; unfold sum_values in *; cbn; now rewrite IH.
Qed.

Lemma monthly_where (f : Period -> bool) (df : list Trip) :
  sum_where f (monthly df) = trips_where (fun d => f (to_period d)) df.
Proof.
  unfold monthly.
  rewrite (groupby_sum_where period_compare period_order).
  now rewrite sum_where_map_key, daily_where.
Qed.

(** X3.  The monthly roll-up holds one row per calendar month with a trip,
    months ascending; the row of a month carries the number of trips whose
    date falls in that month, and the counts add up to [sample_total]. *)
Theorem monthly_counts_partition_sample (df : list Trip) :
  StronglySorted (precedes period_compare) (map fst (monthly df)) /\
  (forall p, In p (map fst (monthly df))
             <-> exists t, In t df /\ to_period (date t) = p) /\
  (forall p c, In (p, c) (monthly df) ->
     c = trips_where (fun d => same_key period_compare p (to_period d)) df) /\
  sum_trips (monthly df) = sample_total df.
Proof.
  split; [apply monthly_months_ascending|].
  split; [|split].
  - intros p. unfold monthly.
    rewrite (groupby_sum_keys period_compare period_order), map_map.
    cbn [fst]. rewrite in_map_iff. split.
    + intros ([d c] & Hp & Hin). cbn in Hp.
      assert (Hd : In d (map fst (daily df)))
        by now apply (in_map fst _ (d, c)).
      apply daily_dates in Hd. destruct Hd as (t & Ht & Hdt).
      exists t. split; [exact Ht|]. now rewrite Hdt.
    + intros (t & Ht & Hp).
      assert (Hd : In (date t) (map fst (daily df)))
        by (apply daily_dates; now exists t).
      apply in_map_iff in Hd. destruct Hd as ([d c] & Hd & Hin).
      exists (d, c). cbn in *. split; [now rewrite Hd|exact Hin].
  - intros p c Hin.
    assert (Hc : c = sum_where (same_key period_compare p) (monthly df)).
    { symmetry. apply (sorted_total_of period_compare period_order);
        [apply monthly_months_ascending|exact Hin]. }
    now rewrite Hc, monthly_where.
  - now rewrite <- sum_where_all, monthly_where, sample_total_all.
Qed.

Lemma sum_trips_perm {X : Type} (l l' : list (X * Z)) :
  Permutation l l' -> sum_trips l = sum_trips l'.
Proof.
  intros H. unfold sum_trips.
  apply (sum_values_perm (map snd l) (map snd l')). now apply Permutation_map.
Qed.

(** X4.  Whatever order the sort gives them, the rows of [monthly_sorted]
    and of [seasonal] each add up to [sample_total]: sorting loses no trip
    and counts none twice. *)
Theorem sorted_rollups_keep_total
    (argsort : list Z -> list nat) (df : list Trip) :
  argsort_contract argsort ->
  sum_trips (monthly_sorted argsort df) = sample_total df /\
  sum_trips (seasonal argsort df) = sample_total df.
Proof.
  intros contract. split.
  - unfold monthly_sorted.
    rewrite (sum_trips_perm _ _ (sort_values_desc_perm argsort contract
                                   snd (monthly df))).
    now rewrite <- sum_where_all, monthly_where, sample_total_all.
  - unfold seasonal.
    rewrite (sum_trips_perm _ _ (sort_values_desc_perm argsort contract
                                   snd _)).
    rewrite <- sum_where_all.
    rewrite (groupby_size_where season_compare season_order).
    rewrite filter_map_length. apply sample_total_all.
Qed.

Lemma sorted_rollups_keep_total_witness :
  sum_trips (monthly_sorted reversing_argsort scenario_a) = 3 /\
  sum_trips (seasonal reversing_argsort scenario_a) = 3.
Proof.
  exact (sorted_rollups_keep_total reversing_argsort scenario_a
           reversing_argsort_contract).
Defined.

(** ** The date range *)

Lemma date_le_refl (a : Timestamp) : date_le a a.
Proof.
  unfold date_le. now rewrite (proj2 (cmp_eq _ date_order a a) eq_refl).
Qed.

Lemma date_lt_le (a b : Timestamp) : date_compare a b = Lt -> date_le a b.
Proof. unfold date_le. congruence. Qed.

Lemma date_not_lt_le (a b : Timestamp) :
  date_compare b a <> Lt -> date_le a b.
Proof.
  unfold date_le. intros H Hgt. apply H. now apply (cmp_gt _ date_order).
Qed.

Lemma date_le_cases (a b : Timestamp) :
  date_le a b <-> date_compare a b = Lt \/ a = b.
Proof.
  unfold date_le. rewrite <- (cmp_eq _ date_order).
  destruct (date_compare a b); intuition congruence.
Qed.

Lemma date_le_trans (a b c : Timestamp) :
  date_le a b -> date_le b c -> date_le a c.
Proof.
  rewrite !date_le_cases. intros [Hab | ->] [Hbc | ->]; auto.
  left. exact (cmp_trans _ date_order _ _ _ Hab Hbc).
Qed.

Lemma date_le_antisym (a b : Timestamp) :
  date_le a b -> date_le b a -> a = b.
Proof.
  rewrite !date_le_cases. intros [Hab | ->] [Hba|Heq]; auto.
  assert (H := cmp_trans _ date_order _ _ _ Hab Hba).
  rewrite (proj2 (cmp_eq _ date_order a a) eq_refl) in H. discriminate.
Qed.

Lemma fold_min_spec (rest : list Timestamp) (d : Timestamp) :
  let m := fold_left (fun a b => if date_ltb b a then b else a) rest d in
  In m (d :: rest) /\ Forall (date_le m) (d :: rest).
Proof.
  revert d. induction rest as [|x rest IH]; intros d; cbn [fold_left].
  - cbn. split; [now left|]. constructor; [apply date_le_refl|constructor].
  - destruct (IH (if date_ltb x d then x else d)) as [Hin Hall].
    inversion Hall as [|? ? Hm Hrest]; subst. split.
    + destruct Hin as [Hin|Hin]; [|now right; right].
      destruct (date_ltb x d); rewrite <- Hin; [right; now left|now left].
    + unfold date_ltb in *.
      destruct (date_compare x d) eqn:E.
      * apply (cmp_eq _ date_order) in E. subst x.
        constructor; [exact Hm|]. constructor; [exact Hm|exact Hrest].
      * constructor; [|constructor; [exact Hm|exact Hrest]].
        eapply date_le_trans; [exact Hm|now apply date_lt_le].
      * constructor; [exact Hm|]. constructor; [|exact Hrest].
        eapply date_le_trans; [exact Hm|].
        apply date_lt_le. now apply (cmp_gt _ date_order).
Qed.

Lemma fold_max_spec (rest : list Timestamp) (d : Timestamp) :
  let m := fold_left (fun a b => if date_ltb a b then b else a) rest d in
  In m (d :: rest) /\ Forall (fun x => date_le x m) (d :: rest).
Proof.
  revert d. induction rest as [|x rest IH]; intros d; cbn [fold_left].
  - cbn. split; [now left|]. constructor; [apply date_le_refl|constructor].
  - destruct (IH (if date_ltb d x then x else d)) as [Hin Hall].
    inversion Hall as [|? ? Hm Hrest]; subst. split.
    + destruct Hin as [Hin|Hin]; [|now right; right].
      destruct (date_ltb d x); rewrite <- Hin; [right; now left|now left].
    + unfold date_ltb in *.
      destruct (date_compare d x) eqn:E.
      * apply (cmp_eq _ date_order) in E. subst x.
        constructor; [exact Hm|]. constructor; [exact Hm|exact Hrest].
      * constructor; [|constructor; [exact Hm|exact Hrest]].
        eapply date_le_trans; [|exact Hm]. now apply date_lt_le.
      * constructor; [exact Hm|]. constructor; [|exact Hrest].
        eapply date_le_trans; [|exact Hm].
        apply date_lt_le. now apply (cmp_gt _ date_order).
Qed.

Lemma series_min_spec (l : list Timestamp) :
  l <> [] ->
  exists m, series_min l = Some m /\ In m l /\ Forall (date_le m) l.
Proof.
  destruct l as [|d rest]; [congruence|]. intros _.
  eexists. split; [reflexivity|]. apply fold_min_spec.
Qed.

Lemma series_max_spec (l : list Timestamp) :
  l <> [] ->
  exists m, series_max l = Some m /\ In m l /\
            Forall (fun x => date_le x m) l.
Proof.
  destruct l as [|d rest]; [congruence|]. intros _.
  eexists. split; [reflexivity|]. apply fold_max_spec.
Qed.

(** X5.  For a sample with at least one trip, [date_min] and [date_max]
    are dates of trips of the sample, and every trip's date lies between
    them. *)
Theorem date_range_brackets_sample (df : list Trip) :
  df <> [] ->
  exists lo hi,
    date_min df = Ok lo /\ date_max df = Ok hi /\
    (exists t, In t df /\ date t = lo) /\
    (exists t, In t df /\ date t = hi) /\
    (forall t, In t df -> date_le lo (date t) /\ date_le (date t) hi).
Proof.
  intros Hne.
  assert (Hne' : map date df <> [])
    by (destruct df; [congruence|discriminate]).
  destruct (series_min_spec _ Hne') as (lo & Hlo & Hinlo & Halllo).
  destruct (series_max_spec _ Hne') as (hi & Hhi & Hinhi & Hallhi).
  exists lo, hi. unfold date_min, date_max. rewrite Hlo, Hhi.
  split; [reflexivity|]. split; [reflexivity|].
  apply in_map_iff in Hinlo. apply in_map_iff in Hinhi.
  split; [destruct Hinlo as (t & ? & ?); now exists t|].
  split; [destruct Hinhi as (t & ? & ?); now exists t|].
  intros t Ht. rewrite Forall_forall in Halllo, Hallhi.
  split; [apply Halllo|apply Hallhi]; now apply in_map.
Qed.

Lemma date_range_brackets_sample_witness :
  exists lo hi,
    date_min [trip_on (mkDate 2022 6 10); trip_on (mkDate 2022 1 5);
              trip_on (mkDate 2022 12 31); trip_on (mkDate 2022 3 1)]
    = Ok lo /\
    date_max [trip_on (mkDate 2022 6 10); trip_on (mkDate 2022 1 5);
              trip_on (mkDate 2022 12 31); trip_on (mkDate 2022 3 1)]
    = Ok hi /\ lo = mkDate 2022 1 5 /\ hi = mkDate 2022 12 31.
Proof.
  destruct (date_range_brackets_sample
              [trip_on (mkDate 2022 6 10); trip_on (mkDate 2022 1 5);
               trip_on (mkDate 2022 12 31); trip_on (mkDate 2022 3 1)])
    as (lo & hi & Hlo & Hhi & _); [discriminate|].
  exists lo, hi. split; [exact Hlo|]. split; [exact Hhi|].
  cbn in Hlo, Hhi. split; congruence.
Defined.

(** ** Roll-ups do not depend on the order of the rows *)

Section Canonical.

Context {K : Type}.
Variable cmp : K -> K -> comparison.
Hypothesis order : strict_order cmp.

Lemma sorted_rows_unique (l1 l2 : list (K * Z)) :
  StronglySorted (precedes cmp) (map fst l1) ->
  StronglySorted (precedes cmp) (map fst l2) ->
  (forall x, In x l1 <-> In x l2) ->
  l1 = l2.
Proof.
  revert l2. induction l1 as [|[k1 c1] l1 IH]; intros l2 H1 H2 Hsame.
  - destruct l2 as [|x l2]; [reflexivity|].
    exfalso. apply (proj2 (Hsame x)). now left.
  - destruct l2 as [|[k2 c2] l2].
    { exfalso. apply (proj1 (Hsame (k1, c1))). now left. }
    cbn [map fst] in H1, H2.
    inversion H1 as [|? ? Hs1 Hall1]; subst.
    inversion H2 as [|? ? Hs2 Hall2]; subst.
    rewrite Forall_forall in Hall1, Hall2.
    assert (Hhead : (k1, c1) = (k2, c2)).
    { destruct (proj1 (Hsame (k1, c1)) (or_introl eq_refl)) as [E|Hin1];
        [now symmetry|].
      destruct (proj2 (Hsame (k2, c2)) (or_introl eq_refl)) as [E|Hin2];
        [exact E|].
      exfalso. apply (precedes_irrefl cmp order k1).
      apply (cmp_trans cmp order k1 k2 k1).
      - apply Hall1. now apply (in_map fst _ (k2, c2)).
      - apply Hall2. now apply (in_map fst _ (k1, c1)). }
    inversion Hhead; subst k2 c2. f_equal.
    apply IH; [exact Hs1|exact Hs2|].
    intros [k c]. split; intros Hin.
    + destruct (proj1 (Hsame (k, c)) (or_intror Hin)) as [E|Hin']; auto.
      inversion E; subst. exfalso. apply (precedes_irrefl cmp order k).
      apply Hall1. now apply (in_map fst _ (k, c)).
    + destruct (proj2 (Hsame (k, c)) (or_intror Hin)) as [E|Hin']; auto.
      inversion E; subst. exfalso. apply (precedes_irrefl cmp order k).
      apply Hall2. now apply (in_map fst _ (k, c)).
Qed.

Lemma groupby_sum_In (rows : list (K * Z)) (k : K) (c : Z) :
  In (k, c) (groupby_sum cmp rows)
  <-> In k (map fst rows) /\ c = total_of cmp k rows.
Proof.
  split.
  - intros Hin. split.
    + apply (groupby_sum_keys cmp order).
      now apply (in_map fst _ (k, c)).
    + now apply (groupby_sum_row cmp order).
  - intros [Hk ->].
    apply (groupby_sum_keys cmp order) in Hk.
    apply in_map_iff in Hk. destruct Hk as ([k' c'] & E & Hin).
    cbn in E. subst k'.
    now rewrite <- (groupby_sum_row cmp order _ _ _ Hin).
Qed.

Lemma total_of_perm (k : K) (rows rows' : list (K * Z)) :
  Permutation rows rows' -> total_of cmp k rows = total_of cmp k rows'.
Proof.
  intros H. unfold total_of. apply sum_values_perm.
  apply Permutation_map.
  induction H as [|x l l' _ IH|x y l|l l' l'' _ IH1 _ IH2]; cbn.
  - constructor.
  - destruct (same_key cmp k (fst x)); [now constructor|exact IH].
  - destruct (same_key cmp k (fst x)), (same_key cmp k (fst y));
      try reflexivity. apply perm_swap.
  - now transitivity (filter (fun r => same_key cmp k (fst r)) l').
Qed.

Lemma groupby_sum_perm (rows rows' : list (K * Z)) :
  Permutation rows rows' -> groupby_sum cmp rows = groupby_sum cmp rows'.
Proof.
  intros H. apply sorted_rows_unique;
    try apply (groupby_sum_sorted cmp order).
  intros [k c]. rewrite !groupby_sum_In.
  rewrite (total_of_perm k _ _ H).
  split; intros [Hk Hc]; (split; [|exact Hc]).
  - eapply Permutation_in; [|exact Hk]. now apply Permutation_map.
  - eapply Permutation_in; [|exact Hk].
    apply Permutation_map. now symmetry.
Qed.

Lemma groupby_size_perm (keys keys' : list K) :
  Permutation keys keys' -> groupby_size cmp keys = groupby_size cmp keys'.
Proof.
  intros H. unfold groupby_size. apply groupby_sum_perm.
  now apply Permutation_map.
Qed.

End Canonical.

Lemma daily_perm (df df' : list Trip) :
  Permutation df df' -> daily df = daily df'.
Proof.
  intros H. unfold daily.
  apply (groupby_size_perm date_compare date_order).
  now apply Permutation_map.
Qed.

Lemma series_min_perm (l l' : list Timestamp) :
  Permutation l l' -> series_min l = series_min l'.
Proof.
  intros H. destruct l as [|d l].
  - apply Permutation_nil in H. now subst.
  - assert (Hl : d :: l <> []) by discriminate.
    assert (Hl' : l' <> []).
    { intros ->. apply Permutation_sym, Permutation_nil in H. discriminate. }
    destruct (series_min_spec _ Hl) as (m & -> & Hin & Hall).
    destruct (series_min_spec _ Hl') as (m' & -> & Hin' & Hall').
    rewrite Forall_forall in Hall, Hall'. f_equal.
    apply date_le_antisym.
    + apply Hall. eapply Permutation_in; [symmetry; exact H|exact Hin'].
    + apply Hall'. eapply Permutation_in; [exact H|exact Hin].
Qed.

Lemma series_max_perm (l l' : list Timestamp) :
  Permutation l l' -> series_max l = series_max l'.
Proof.
  intros H. destruct l as [|d l].
  - apply Permutation_nil in H. now subst.
  - assert (Hl : d :: l <> []) by discriminate.
    assert (Hl' : l' <> []).
    { intros ->. apply Permutation_sym, Permutation_nil in H. discriminate. }
    destruct (series_max_spec _ Hl) as (m & -> & Hin & Hall).
    destruct (series_max_spec _ Hl') as (m' & -> & Hin' & Hall').
    rewrite Forall_forall in Hall, Hall'. f_equal.
    apply date_le_antisym.
    + apply Hall'. eapply Permutation_in; [exact H|exact Hin].
    + apply Hall. eapply Permutation_in; [symmetry; exact H|exact Hin'].
Qed.

(** ** When the script raises *)

Lemma date_range_ok (df : list Trip) :
  df <> [] -> exists lo hi, date_min df = Ok lo /\ date_max df = Ok hi.
Proof.
  intros Hne.
  assert (Hne' : map date df <> [])
    by (destruct df; [congruence|discriminate]).
  destruct (series_min_spec _ Hne') as (lo & Hlo & _).
  destruct (series_max_spec _ Hne') as (hi & Hhi & _).
  exists lo, hi. unfold date_min, date_max. now rewrite Hlo, Hhi.
Qed.

Lemma peak_row_ok (df : list Trip) :
  df <> [] -> exists r, peak_row df = Ok r.
Proof.
  intros Hne. apply daily_nonempty in Hne.
  assert (Hne' : map snd (daily df) <> [])
    by (destruct (daily df); [congruence|discriminate]).
  destruct (idxmax_first_maximum _ Hne') as (i & m & Hi & Hn & _).
  unfold peak_row, loc. rewrite Hi. cbn [bind].
  rewrite nth_error_map in Hn.
  destruct (nth_error (daily df) i) as [r|]; [now exists r|discriminate].
Qed.

Lemma weekend_share_ok (df : list Trip) : exists q, weekend_share df = Ok q.
Proof.
  unfold weekend_share, truediv.
  destruct (Z.gtb_spec (weekend_total df + weekday_total df) 0);
    [|now eexists].
  destruct (Z.eqb_spec (weekend_total df + weekday_total df) 0);
    [lia|now eexists].
Qed.

Lemma handy_picks_ok (lib : Library) (a : arithmetic)
    (top20 : list RankRow) (top20_total : Z) :
  a <> Other -> exists p, handy_picks lib a top20 top20_total = Ok p.
Proof.
  intros Ha.
  destruct (Z.lt_ge_cases 0 top20_total) as [Hpos|Hz];
    [destruct (Nat.lt_ge_cases (length top20) 5) as [Hfew|Hfive]|].
  - eexists. apply handy_picks_defaults. now left.
  - destruct top20 as [|r0 [|r1 [|r2 rest]]]; cbn [length] in Hfive;
      try lia.
    eexists. now apply handy_picks_computed.
  - eexists. apply handy_picks_defaults. right. lia.
Qed.

Lemma valid_rows_errors (top20 : DataFrame) (e : exn) :
  valid_rows top20 = Err e -> e = KeyError \/ e = ValueError.
Proof.
  unfold valid_rows, getitem.
  destruct (forallb _ _); cbn [bind]; [|intros H; left; congruence].
  destruct (_ =? 1)%nat; [discriminate|intros H; right; congruence].
Qed.

Lemma top20_prep_ok
    (argsort : list Z -> list nat) (lib : Library) (top20 : DataFrame)
    (rows0 : list (pick * Z)) :
  valid_rows top20 = Ok (Numeric rows0) ->
  top20_arithmetic top20 <> Other ->
  exists prep, top20_prep argsort lib top20 = Ok prep.
Proof.
  intros Hv Ha. rewrite (top20_arithmetic_numeric _ _ Hv) in Ha.
  unfold top20_prep. destruct (empty top20); cbn [negb]; [now eexists|].
  rewrite Hv. cbn [bind].
  destruct (value_arithmetic top20 (map snd rows0));
    [now eexists|now eexists|congruence].
Qed.

(** X7.  With a ranking table whose values are counts in exact or [int64]
    arithmetic, the script raises in two situations only.  With no trips it
    raises [AttributeError] (the date range on line 82).  With trips it
    raises exactly when the normalised ranking table is not empty and its
    two columns cannot be taken, with the exception of that step:
    [KeyError] for a missing column, [ValueError] for an ambiguous [value]
    label.  It never raises [ZeroDivisionError] or [IndexError]. *)
Theorem quick_stats_raises_iff
    (argsort : list Z -> list nat) (lib : Library) (df : list Trip)
    (top20 : DataFrame) (e : exn) :
  top20_arithmetic (normalize top20) <> Other ->
  (quick_stats argsort lib df top20 = Err e <->
   (df = [] /\ e = AttributeError) \/
   (df <> [] /\ empty (normalize top20) = false /\
    valid_rows (normalize top20) = Err e /\
    (e = KeyError \/ e = ValueError))).
Proof.
  intros Ha. unfold quick_stats. destruct df as [|t df].
  - cbn. split.
    + intros H. left. split; [reflexivity|congruence].
    + intros [[_ ->]|[Hne _]]; [reflexivity|congruence].
  - assert (Hne : t :: df <> []) by discriminate.
    destruct (date_range_ok _ Hne) as (lo & hi & -> & ->).
    destruct (peak_row_ok _ Hne) as (pk & ->).
    destruct (weekend_share_ok (t :: df)) as (q & ->). cbn [bind].
    destruct (empty (normalize top20)) eqn:He.
    + unfold top20_prep. rewrite He. cbn [negb bind fst snd].
      destruct (handy_picks_ok lib _ [] 0 Ha) as (p & ->). cbn [bind].
      split; [discriminate|].
      intros [[? _]|(_ & He' & _)]; congruence.
    + destruct (valid_rows (normalize top20)) as [[rows0|rows0]|e'] eqn:Hv.
      * destruct (top20_prep_ok argsort lib _ _ Hv Ha) as (prep & ->).
        cbn [bind].
        destruct (handy_picks_ok lib _ (fst prep) (snd prep) Ha) as (p & ->).
        cbn [bind]. split; [discriminate|].
        intros [[? _]|(_ & _ & Hv' & _)]; congruence.
      * exfalso. apply Ha. unfold top20_arithmetic. now rewrite Hv.
      * unfold top20_prep. rewrite He, Hv. cbn [negb bind]. split.
        -- intros H. inversion H; subst e'. right.
           split; [exact Hne|]. split; [reflexivity|].
           split; [reflexivity|].
           now apply (valid_rows_errors _ _ Hv).
        -- intros [[? _]|(_ & _ & Hv' & _)]; congruence.
Qed.

Lemma quick_stats_raises_iff_witness :
  quick_stats stable_argsort refusing_library scenario_a ambiguous_counts
  = Err ValueError.
Proof.
  apply (proj2 (quick_stats_raises_iff stable_argsort refusing_library
                  scenario_a ambiguous_counts ValueError
                  ltac:(vm_compute; discriminate))).
  right. split; [discriminate|]. split; [reflexivity|].
  split; [reflexivity|now right].
Defined.

(** X8.  A ranking table without rows never makes the script raise,
    whatever its columns are: with at least one trip the bundle is produced,
    the ranking is empty, the total is 0 and the picks are the defaults.
    This covers the missing ranking file. *)
Theorem ranking_without_rows_is_harmless
    (argsort : list Z -> list nat) (lib : Library) (df : list Trip)
    (top20 : DataFrame) :
  df <> [] -> rows top20 = [] ->
  exists st,
    quick_stats argsort lib df top20 = Ok st /\
    st_top20 st = [] /\ st_top20_total st = 0 /\
    st_picks st = default_picks.
Proof.
  intros Hne Hrows. unfold quick_stats.
  destruct (date_range_ok _ Hne) as (lo & hi & -> & ->).
  destruct (peak_row_ok _ Hne) as (pk & ->).
  destruct (weekend_share_ok df) as (q & ->). cbn [bind].
  assert (He : empty (normalize top20) = true).
  { unfold empty, normalize. cbn [rows]. now rewrite Hrows. }
  unfold top20_prep. rewrite He. cbn [negb bind fst snd].
  rewrite handy_picks_defaults by (left; cbn; lia). cbn [bind].
  eexists. now repeat split.
Qed.

Lemma ranking_without_rows_is_harmless_witness :
  exists st,
    quick_stats stable_argsort refusing_library scenario_a (read_top20 None)
    = Ok st /\
    st_picks st = default_picks.
Proof.
  destruct (ranking_without_rows_is_harmless stable_argsort refusing_library
              scenario_a (read_top20 None)) as (st & Hst & _ & _ & Hp);
    [discriminate|reflexivity|].
  exists st. now split.
Defined.

(** ** The ranking and its shares *)

(** X9.  For a ranking table of counts in exact or [int64] arithmetic, the
    prepared ranking consists of exactly the valid rows, each once,
    arranged by descending value.  [top20_total] is the sum of their values
    as the machine computes it: a signed 64-bit integer that differs from
    the sum by a multiple of 2^64, and the sum itself when that is below
    2^63. *)
Theorem top20_ranking_is_sorted_valid_rows
    (argsort : list Z -> list nat) (lib : Library) (top20 : DataFrame)
    (rows0 : list (pick * Z)) :
  argsort_contract argsort ->
  valid_rows top20 = Ok (Numeric rows0) ->
  top20_arithmetic top20 <> Other ->
  exists ranked top20_total,
    top20_prep argsort lib top20 = Ok (ranked, top20_total) /\
    Permutation (map (fun r => (start_station_name r, value r)) ranked)
      rows0 /\
    descending (map value ranked) /\
    - int64_bound <= top20_total < int64_bound /\
    (exists k, top20_total
               = sum_values (map snd rows0) + k * (2 * int64_bound)) /\
    (sum_values (map snd rows0) < int64_bound ->
     top20_total = sum_values (map snd rows0)).
Proof.
  intros contract Hv Ha.
  assert (Hnn : 0 <= sum_values (map snd rows0))
    by (apply sum_values_nonneg, Forall_map, (valid_rows_nonneg _ _ Hv)).
  destruct (top20_prep_unfold argsort lib contract top20 rows0 Hv Ha)
    as (ranked0 & HP & Hd & ->).
  eexists _, _. split; [reflexivity|].
  rewrite !map_map. cbn [start_station_name value].
  split; [erewrite map_ext; [rewrite map_id; exact HP|]; now intros [n v]|].
  split; [exact Hd|].
  rewrite (top20_arithmetic_numeric _ _ Hv) in *.
  destruct (value_arithmetic top20 (map snd rows0)) eqn:E; [| |congruence].
  - apply value_arithmetic_exact in E.
    cbn [machine_sum]. unfold float_exact_max, int64_bound in *.
    split; [lia|]. split; [exists 0; lia|reflexivity].
  - cbn [machine_sum]. split; [apply wrap64_range|].
    split; [apply wrap64_congruent|].
    intros Hlt. apply wrap64_small. unfold int64_bound in *. lia.
Qed.

Lemma top20_ranking_is_sorted_valid_rows_witness :
  exists ranked,
    top20_prep stable_argsort refusing_library
      (normalize six_busy_stations)
    = Ok (ranked, 20) /\
    descending (map value ranked).
Proof.
  destruct (top20_ranking_is_sorted_valid_rows stable_argsort
              refusing_library (normalize six_busy_stations)
              [(Scalar (Str "A"), 3); (Scalar (Str "B"), 9);
               (Scalar (Str "D"), 1); (Scalar (Str "E"), 3);
               (Scalar (Str "F"), 4)]
              stable_argsort_contract eq_refl
              ltac:(vm_compute; discriminate))
    as (ranked & total & H & _ & Hd & _ & _ & Hsum).
  assert (E : total = 20) by (apply Hsum; vm_compute; reflexivity).
  subst total. exists ranked. split; [exact H|exact Hd].
Defined.

Lemma sum_shares_quotients (T : Z) (vs : list Z) :
  (sum_shares (map (fun v => inject_Z v / inject_Z T) vs)
   == inject_Z (sum_values vs) / inject_Z T)%Q.
Proof.
  unfold sum_shares, sum_values.
  induction vs as [|v vs IH]; cbn [map fold_right].
  - unfold Qdiv. now rewrite Qmult_0_l.
  - rewrite IH, inject_Z_plus. unfold Qdiv. ring.
Qed.

Lemma quotient_self (T : Z) : T <> 0 -> (inject_Z T / inject_Z T == 1)%Q.
Proof.
  intros H. unfold Qdiv. apply Qmult_inv_r.
  intros E. apply H. unfold Qeq, inject_Z in E. cbn in E. lia.
Qed.

(** X10.  For a ranking table of counts in exact or [int64] arithmetic:
    when [top20_total] is positive, every row of the ranking has the share
    [value / top20_total], and the shares of all rows add up to the sum of
    the values divided by [top20_total], which is 1 when the sum is below
    2^63; when [top20_total] is not positive every share is 0. *)
Theorem top20_shares_sum_to_one
    (argsort : list Z -> list nat) (lib : Library) (top20 : DataFrame)
    (rows0 : list (pick * Z)) :
  argsort_contract argsort ->
  valid_rows top20 = Ok (Numeric rows0) ->
  top20_arithmetic top20 <> Other ->
  exists ranked top20_total,
    top20_prep argsort lib top20 = Ok (ranked, top20_total) /\
    (0 < top20_total ->
     Forall (fun r => share_of_top20 r
                      = (inject_Z (value r) / inject_Z top20_total)%Q)
       ranked /\
     (sum_shares (map share_of_top20 ranked)
      == inject_Z (sum_values (map snd rows0)) / inject_Z top20_total)%Q /\
     (sum_values (map snd rows0) < int64_bound ->
      (sum_shares (map share_of_top20 ranked) == 1)%Q)) /\
    (top20_total <= 0 -> Forall (fun r => share_of_top20 r = 0%Q) ranked).
Proof.
  intros contract Hv Ha.
  assert (Hnn : 0 <= sum_values (map snd rows0))
    by (apply sum_values_nonneg, Forall_map, (valid_rows_nonneg _ _ Hv)).
  destruct (top20_prep_unfold argsort lib contract top20 rows0 Hv Ha)
    as (ranked0 & HP & _ & ->).
  set (T := machine_sum (top20_arithmetic top20) (map snd rows0)).
  eexists _, T. split; [reflexivity|]. split.
  - intros Hpos. destruct (Z.gtb_spec T 0) as [_|]; [|lia].
    assert (Hsum :
      (sum_shares
         (map share_of_top20
            (map (fun r => mkRank (fst r) (snd r)
                             (inject_Z (snd r) / inject_Z T)) ranked0))
       == inject_Z (sum_values (map snd rows0)) / inject_Z T)%Q).
    { rewrite map_map. cbn [share_of_top20].
      rewrite <- (map_map snd (fun v => (inject_Z v / inject_Z T)%Q)).
      rewrite sum_shares_quotients.
      now rewrite (sum_values_perm _ _ (Permutation_map snd HP)). }
    split; [|split; [exact Hsum|]].
    + apply Forall_forall. intros r Hr. apply in_map_iff in Hr.
      destruct Hr as (r0 & <- & _). reflexivity.
    + intros Hlt. rewrite Hsum.
      replace (sum_values (map snd rows0)) with T.
      * apply quotient_self. lia.
      * apply machine_sum_exact; [exact Ha|lia].
  - intros Hz. destruct (Z.gtb_spec T 0) as [|_]; [lia|].
    apply Forall_forall. intros r Hr. apply in_map_iff in Hr.
    destruct Hr as (r0 & <- & _). reflexivity.
Qed.

Lemma top20_shares_sum_to_one_witness :
  exists ranked,
    top20_prep stable_argsort refusing_library (normalize six_busy_stations)
    = Ok (ranked, 20) /\
    (sum_shares (map share_of_top20 ranked) == 1)%Q.
Proof.
  destruct (top20_shares_sum_to_one stable_argsort refusing_library
              (normalize six_busy_stations)
              [(Scalar (Str "A"), 3); (Scalar (Str "B"), 9);
               (Scalar (Str "D"), 1); (Scalar (Str "E"), 3);
               (Scalar (Str "F"), 4)]
              stable_argsort_contract eq_refl
              ltac:(vm_compute; discriminate))
    as (ranked & total & H & Hpos & _).
  assert (E : total = 20) by (vm_compute in H; now inversion H).
  subst total.
  exists ranked. split; [exact H|].
  apply Hpos; [lia|vm_compute; reflexivity].
Defined.

Lemma quotient_le (T a b : Z) :
  0 < T -> a <= b -> (inject_Z a / inject_Z T <= inject_Z b / inject_Z T)%Q.
Proof.
  intros HT Hab. unfold Qdiv. apply Qmult_le_compat_r.
  - rewrite <- Zle_Qle. exact Hab.
  - apply Qinv_le_0_compat. change 0%Q with (inject_Z 0).
    rewrite <- Zle_Qle. lia.
Qed.

(** X11.  For a ranking table of counts in exact or [int64] arithmetic
    whose values add up to less than 2^63: when the picks are computed (at
    least 5 valid rows, positive total), the three picked values descend,
    the first is positive, and the shares are nested: top-1 at most top-3,
    top-3 at most top-5, top-5 at most 1. *)
Theorem picks_are_nested
    (argsort : list Z -> list nat) (lib : Library) (top20 : DataFrame)
    (rows0 : list (pick * Z)) :
  argsort_contract argsort ->
  valid_rows (normalize top20) = Ok (Numeric rows0) ->
  top20_arithmetic (normalize top20) <> Other ->
  (5 <= length rows0)%nat ->
  0 < sum_values (map snd rows0) < int64_bound ->
  exists p,
    top20_picks argsort lib top20 = Ok p /\
    0 <= t3_val p /\ t3_val p <= t2_val p /\ t2_val p <= t1_val p /\
    0 < t1_val p /\
    (top1_share p <= top3_share p)%Q /\
    (top3_share p <= top5_share p)%Q /\
    (top5_share p <= 1)%Q.
Proof.
  intros contract Hv Ha Hlen [Hpos Hlt]. unfold top20_picks.
  assert (Hnn := valid_rows_nonneg _ _ Hv).
  destruct (top20_prep_unfold argsort lib contract _ rows0 Hv Ha)
    as (ranked0 & HP & Hd & ->).
  set (a := top20_arithmetic (normalize top20)) in *.
  assert (HT : machine_sum a (map snd rows0) = sum_values (map snd rows0))
    by (apply machine_sum_exact; [exact Ha|lia]).
  rewrite HT. set (T := sum_values (map snd rows0)) in *.
  cbn [bind fst snd].
  assert (Hlen0 : (5 <= length ranked0)%nat)
    by now rewrite (Permutation_length HP).
  assert (Hnn0 : Forall (fun r => 0 <= snd r) ranked0).
  { apply Forall_forall. intros r Hr. rewrite Forall_forall in Hnn.
    apply Hnn. eapply Permutation_in; eassumption. }
  assert (HT0 : T = sum_values (map snd ranked0))
    by (symmetry; apply sum_values_perm; now apply Permutation_map).
  destruct ranked0 as [|[n0 v0] [|[n1 v1] [|[n2 v2] [|[n3 v3]
                         [|[n4 v4] rest]]]]]; cbn in Hlen0; try lia.
  cbn [map fst snd].
  rewrite handy_picks_computed; [|exact Ha|cbn [length]; lia|exact Hpos].
  eexists. split; [reflexivity|].
  cbn [t1_val t2_val t3_val top1_share top3_share top5_share value
       share_of_top20 firstn map].
  destruct (Z.gtb_spec T 0) as [_|]; [|lia].
  cbn [map snd] in Hd, HT0.
  assert (Hrest : 0 <= sum_values (map snd rest)).
  { apply sum_values_nonneg. repeat (apply Forall_inv_tail in Hnn0).
    apply Forall_map. exact Hnn0. }
  assert (H0 := Forall_inv Hnn0).
  assert (H1 := Forall_inv (Forall_inv_tail Hnn0)).
  assert (H2 := Forall_inv (Forall_inv_tail (Forall_inv_tail Hnn0))).
  assert (H3 := Forall_inv (Forall_inv_tail (Forall_inv_tail
                              (Forall_inv_tail Hnn0)))).
  assert (H4 := Forall_inv (Forall_inv_tail (Forall_inv_tail
                              (Forall_inv_tail (Forall_inv_tail Hnn0))))).
  cbn [snd] in H0, H1, H2, H3, H4.
  assert (Hhead : 0 < v0).
  { apply (descending_head_positive _ _ Hd). now rewrite <- HT0. }
  destruct (StronglySorted_inv Hd) as [Hd1 Hall0].
  destruct (StronglySorted_inv Hd1) as [_ Hall1].
  apply Forall_inv in Hall0. apply Forall_inv in Hall1.
  unfold sum_values in HT0, Hrest. cbn [fold_right] in HT0.
  rewrite (machine_add_exact a v0 v1) by (try exact Ha; lia).
  rewrite (machine_add_exact a (v0 + v1) v2) by (try exact Ha; lia).
  rewrite machine_sum_exact
    by (try exact Ha; unfold sum_values; cbn [fold_right]; lia).
  unfold sum_values. cbn [fold_right].
  split; [lia|]. split; [lia|]. split; [lia|]. split; [exact Hhead|].
  split; [apply quotient_le; lia|].
  split; [apply quotient_le; lia|].
  rewrite <- (quotient_self T) by lia. apply quotient_le; lia.
Qed.

Lemma picks_are_nested_witness :
  exists p,
    top20_picks stable_argsort refusing_library six_busy_stations = Ok p /\
    (top3_share p <= top5_share p)%Q.
Proof.
  destruct (picks_are_nested stable_argsort refusing_library
              six_busy_stations
              [(Scalar (Str "A"), 3); (Scalar (Str "B"), 9);
               (Scalar (Str "D"), 1); (Scalar (Str "E"), 3);
               (Scalar (Str "F"), 4)]
              stable_argsort_contract eq_refl
              ltac:(vm_compute; discriminate))
    as (p & Hp & _ & _ & _ & _ & _ & H35 & _).
  - cbn. lia.
  - vm_compute. split; reflexivity.
  - exists p. split; [exact Hp|exact H35].
Defined.

(** ** Ambiguous and clean ranking tables *)

Lemma filter_label_other (a b : string) (cols : list string) :
  a <> b -> filter (String.eqb a) (filter (String.eqb b) cols) = [].
Proof.
  intros Hab. apply filter_none. intros x Hx.
  apply filter_In in Hx. destruct Hx as [_ Hx].
  apply String.eqb_eq in Hx. subst x. now apply String.eqb_neq.
Qed.

Lemma filter_label_same (a : string) (cols : list string) :
  filter (String.eqb a) (filter (String.eqb a) cols)
  = filter (String.eqb a) cols.
Proof.
  induction cols as [|c cols IH]; [reflexivity|].
  cbn [filter]. destruct (String.eqb a c) eqn:E; [|exact IH].
  cbn [filter]. now rewrite E, IH.
Qed.

Lemma selected_value_labels (cols : list string) :
  filter (String.eqb "value")
    (flat_map (fun l => filter (String.eqb l) cols)
       ["start_station_name"; "value"])
  = filter (String.eqb "value") cols.
Proof.
  cbn [flat_map]. rewrite app_nil_r, filter_app.
  rewrite filter_label_other by discriminate.
  now rewrite filter_label_same.
Qed.

(** X12.  When, after the normalisation, a ranking table that is not
    empty has the station column but not exactly one column labelled
    [value] among two or more, the script raises [ValueError] (the sort on
    line 112 refuses the ambiguous label): two synonym columns such as
    [count] and [trips] are both renamed and then collide. *)
Theorem ambiguous_value_columns_raise
    (argsort : list Z -> list nat) (lib : Library) (df : list Trip)
    (top20 : DataFrame) :
  df <> [] ->
  empty (normalize top20) = false ->
  has_label "start_station_name" (columns (normalize top20)) = true ->
  (2 <= length (filter (String.eqb "value")
                  (columns (normalize top20))))%nat ->
  quick_stats argsort lib df top20 = Err ValueError.
Proof.
  intros Hne He Hs Hv. unfold quick_stats.
  destruct (date_range_ok _ Hne) as (lo & hi & -> & ->).
  destruct (peak_row_ok _ Hne) as (pk & ->).
  destruct (weekend_share_ok df) as (q & ->). cbn [bind].
  unfold top20_prep. rewrite He. cbn [negb].
  assert (Hval : has_label "value" (columns (normalize top20)) = true).
  { unfold has_label. apply existsb_exists.
    destruct (filter (String.eqb "value") (columns (normalize top20)))
      as [|x l] eqn:E; [cbn in Hv; lia|].
    exists x. apply filter_In. rewrite E. now left. }
  unfold valid_rows, getitem. cbn [forallb]. rewrite Hs, Hval. cbn [andb bind].
  cbn [dropna columns]. rewrite selected_value_labels.
  destruct (Nat.eqb_spec
              (length (filter (String.eqb "value")
                         (columns (normalize top20)))) 1); [lia|].
  reflexivity.
Qed.

Lemma ambiguous_value_columns_raise_witness :
  normalize_columns ["Start Station"; "count"; "trips"]
  = ["start_station_name"; "value"; "value"] /\
  quick_stats reversing_argsort refusing_library scenario_a
    ambiguous_counts
  = Err ValueError.
Proof.
  split; [reflexivity|].
  apply ambiguous_value_columns_raise;
    [discriminate|reflexivity|reflexivity|vm_compute; lia].
Defined.

Lemma two_column_getitem (pairs : list (cell * cell)) :
  getitem ["start_station_name"; "value"] (two_column_frame pairs)
  = Ok (two_column_frame pairs).
Proof.
  unfold getitem, two_column_frame. cbn [columns rows].
  change (forallb (fun l => has_label l ["start_station_name"; "value"])
            ["start_station_name"; "value"]) with true.
  cbv iota. f_equal. f_equal. rewrite map_map. apply map_ext.
  intros [n v]. reflexivity.
Qed.

Lemma numeric_rows_cons (cols : list string) (r : list cell)
    (rs : list (list cell)) :
  numeric_rows cols (r :: rs)
  = match getcol cols r "value" with
    | [Num n] => [(to_pick (getcol cols r "start_station_name"), Z.of_N n)]
    | _ => []
    end ++ numeric_rows cols rs.
Proof. reflexivity. Qed.

Lemma kept_pairs_cons (p : cell * cell) (pairs : list (cell * cell)) :
  kept_pairs (p :: pairs)
  = match fst p, snd p with
    | NaN, _ => []
    | name, Num n => [(Scalar name, Z.of_N n)]
    | _, _ => []
    end ++ kept_pairs pairs.
Proof. reflexivity. Qed.

Lemma two_column_numeric_rows (pairs : list (cell * cell)) :
  Forall (fun p => forall s, snd p <> Str s) pairs ->
  numeric_rows ["start_station_name"; "value"]
    (filter (forallb notna) (map (fun p => [fst p; snd p]) pairs))
  = kept_pairs pairs.
Proof.
  induction 1 as [|[n v] pairs Hp _ IH]; [reflexivity|].
  rewrite kept_pairs_cons.
  cbn [map filter fst snd forallb]. cbn [snd] in Hp.
  destruct n as [|s|z], v as [|s'|z']; cbn [notna andb app];
    try exact IH; try (exfalso; now apply (Hp s'));
    rewrite numeric_rows_cons, IH; reflexivity.
Qed.

Lemma two_column_no_text (pairs : list (cell * cell)) :
  Forall (fun p => forall s, snd p <> Str s) pairs ->
  existsb is_text (value_column (two_column_frame pairs)) = false.
Proof.
  unfold value_column, two_column_frame. cbn [rows columns].
  induction 1 as [|[n v] pairs Hp _ IH]; [reflexivity|].
  cbn [map flat_map fst snd].
  change (getcol ["start_station_name"; "value"] [n; v] "value") with [v].
  cbn [app existsb]. rewrite IH. cbn [snd] in Hp.
  destruct v as [|s|z]; try reflexivity. exfalso. now apply (Hp s).
Qed.

(** X13.  For a table that has exactly the two columns
    [start_station_name] and [value], with numbers or missing cells as
    values, the valid rows are the rows in which neither the station nor
    the value is missing, in their order in the table; the other rows are
    dropped. *)
Theorem valid_rows_drop_missing (pairs : list (cell * cell)) :
  Forall (fun p => forall s, snd p <> Str s) pairs ->
  valid_rows (two_column_frame pairs) = Ok (Numeric (kept_pairs pairs)).
Proof.
  intros H. unfold valid_rows. rewrite two_column_getitem. cbn [bind].
  rewrite (two_column_no_text _ H).
  unfold dropna, two_column_frame. cbn [columns rows].
  change (length (filter (String.eqb "value")
                    ["start_station_name"; "value"]) =? 1)%nat with true.
  cbv iota. now rewrite two_column_numeric_rows.
Qed.

Lemma valid_rows_drop_missing_witness :
  valid_rows (two_column_frame
                [(Str "Grove St PATH", Num 7%N); (NaN, Num 5%N);
                 (Str "City Hall", NaN); (Str "Sip Ave", Num 2%N)])
  = Ok (Numeric [(Scalar (Str "Grove St PATH"), 7);
                 (Scalar (Str "Sip Ave"), 2)]).
Proof.
  apply (valid_rows_drop_missing
           [(Str "Grove St PATH", Num 7%N); (NaN, Num 5%N);
            (Str "City Hall", NaN); (Str "Sip Ave", Num 2%N)]).
  repeat constructor; cbn; discriminate.
Defined.

(** ** Normalising twice *)

Lemma rename_none (p : string -> bool) (new : string) (cols : list string) :
  Forall (fun c => p c = false) cols -> rename_matching p new cols = cols.
Proof.
  intros H. rewrite rename_matching_closed.
  rewrite <- (map_id cols) at 2. apply map_ext_in.
  intros c Hc. rewrite Forall_forall in H. now rewrite (H c Hc).
Qed.

Lemma has_label_In (label : string) (cols : list string) :
  has_label label cols = true <-> In label cols.
Proof.
  unfold has_label. rewrite existsb_exists. split.
  - intros (x & Hx & E). apply String.eqb_eq in E. now subst.
  - intros H. exists label. split; [exact H|apply String.eqb_refl].
Qed.

Lemma normalize_station_settled (cols : list string) :
  has_label "start_station_name" cols = true \/
  Forall (fun c => is_station_col c = false) cols ->
  normalize_station cols = cols.
Proof.
  unfold normalize_station. intros [->|H]; [reflexivity|].
  destruct (has_label "start_station_name" cols); [reflexivity|].
  now apply rename_none.
Qed.

Lemma normalize_value_settled (cols : list string) :
  has_label "value" cols = true \/
  Forall (fun c => is_value_col c = false) cols ->
  normalize_value cols = cols.
Proof.
  unfold normalize_value. intros [->|H]; [reflexivity|].
  destruct (has_label "value" cols); [reflexivity|].
  now apply rename_none.
Qed.

Lemma renamed_settled (p : string -> bool) (new : string)
    (cols : list string) :
  p new = true ->
  has_label new (map (fun l => if p l then new else l) cols) = true \/
  Forall (fun c => p c = false) (map (fun l => if p l then new else l) cols).
Proof.
  intros Hnew. induction cols as [|c cols IH]; [right; constructor|].
  cbn [map]. destruct (p c) eqn:E.
  - left. apply has_label_In. now left.
  - destruct IH as [IH|IH].
    + left. apply has_label_In. right. now apply has_label_In.
    + right. constructor; assumption.
Qed.

Lemma normalize_station_result (cols : list string) :
  has_label "start_station_name" (normalize_station cols) = true \/
  Forall (fun c => is_station_col c = false) (normalize_station cols).
Proof.
  unfold normalize_station.
  destruct (has_label "start_station_name" cols) eqn:E; cbn [negb].
  - now left.
  - rewrite rename_matching_closed. now apply renamed_settled.
Qed.

Lemma normalize_value_result (cols : list string) :
  has_label "value" (normalize_value cols) = true \/
  Forall (fun c => is_value_col c = false) (normalize_value cols).
Proof.
  unfold normalize_value.
  destruct (has_label "value" cols) eqn:E; cbn [negb].
  - now left.
  - rewrite rename_matching_closed. now apply renamed_settled.
Qed.

Lemma normalize_value_keeps_station (cols : list string) :
  has_label "start_station_name" cols = true \/
  Forall (fun c => is_station_col c = false) cols ->
  has_label "start_station_name" (normalize_value cols) = true \/
  Forall (fun c => is_station_col c = false) (normalize_value cols).
Proof.
  unfold normalize_value.
  destruct (has_label "value" cols); cbn [negb]; [tauto|].
  rewrite rename_matching_closed. intros [H|H].
  - left. apply has_label_In. apply has_label_In in H.
    apply in_map_iff. exists "start_station_name". now split.
  - right. apply Forall_map. eapply Forall_impl; [|exact H].
    intros c Hc. cbn beta. now destruct (is_value_col c).
Qed.

(** X14.  Normalising the labels is idempotent and keeps the number of
    columns: a table whose labels were normalised is left unchanged by a
    second normalisation. *)
Theorem normalize_columns_idempotent (cols : list string) :
  normalize_columns (normalize_columns cols) = normalize_columns cols /\
  length (normalize_columns cols) = length cols.
Proof.
  split.
  - unfold normalize_columns.
    rewrite (normalize_station_settled
               (normalize_value (normalize_station cols))).
    + apply normalize_value_settled, normalize_value_result.
    + apply normalize_value_keeps_station, normalize_station_result.
  - unfold normalize_columns, normalize_value, normalize_station.
    destruct (has_label "start_station_name" cols); cbn [negb];
      rewrite ?rename_matching_closed;
      match goal with
      | |- context [has_label "value" ?l] =>
          destruct (has_label "value" l); cbn [negb]
      end;
      rewrite ?rename_matching_closed, ?length_map; reflexivity.
Qed.

(** ** The top months *)

Lemma descending_app_le (l1 l2 : list Z) (a b : Z) :
  descending (l1 ++ l2) -> In a l1 -> In b l2 -> b <= a.
Proof.
  unfold descending. induction l1 as [|x l1 IH]; cbn; intros H Ha Hb;
    [tauto|].
  inversion H as [|? ? Hs Hall]; subst. destruct Ha as [->|Ha].
  - rewrite Forall_forall in Hall.
    assert (a >= b) by (apply Hall; apply in_or_app; now right). lia.
  - now apply IH.
Qed.

(** X15.  [top_months] holds the first three rows of the sorted monthly
    roll-up, or all of them when there are fewer than three months, and no
    month left out of it has more trips than a month in it. *)
Theorem top_months_are_the_busiest
    (argsort : list Z -> list nat) (df : list Trip) :
  argsort_contract argsort ->
  length (top_months argsort df) = Nat.min 3 (length (monthly df)) /\
  (forall a b, In a (top_months argsort df) -> In b (monthly df) ->
               ~ In b (top_months argsort df) -> snd b <= snd a).
Proof.
  intros contract. unfold top_months.
  assert (HP : Permutation (monthly_sorted argsort df) (monthly df))
    by (unfold monthly_sorted; now apply sort_values_desc_perm).
  assert (Hd : descending (map snd (monthly_sorted argsort df)))
    by (unfold monthly_sorted; now apply sort_values_desc_sorted).
  split.
  - now rewrite length_firstn, (Permutation_length HP).
  - intros a b Ha Hb Hnot.
    rewrite <- (firstn_skipn 3 (monthly_sorted argsort df)), map_app in Hd.
    apply (descending_app_le _ _ _ _ Hd); [now apply in_map|].
    apply in_map.
    apply (Permutation_in _ (Permutation_sym HP)) in Hb.
    rewrite <- (firstn_skipn 3 (monthly_sorted argsort df)) in Hb.
    apply in_app_or in Hb. tauto.
Qed.

Lemma top_months_are_the_busiest_witness :
  length (top_months stable_argsort
            [trip_on (mkDate 2022 1 3); trip_on (mkDate 2022 2 3);
             trip_on (mkDate 2022 3 3); trip_on (mkDate 2022 3 4);
             trip_on (mkDate 2022 4 4); trip_on (mkDate 2022 4 5)])
  = 3%nat.
Proof.
  exact (proj1 (top_months_are_the_busiest stable_argsort
                  [trip_on (mkDate 2022 1 3); trip_on (mkDate 2022 2 3);
                   trip_on (mkDate 2022 3 3); trip_on (mkDate 2022 3 4);
                   trip_on (mkDate 2022 4 4); trip_on (mkDate 2022 4 5)]
                  stable_argsort_contract)).
Defined.

(** ** Counts per label *)

Lemma tally_keys (s x : string) (acc : list (string * Z)) :
  In x (map fst (tally s acc)) <-> x = s \/ In x (map fst acc).
Proof.
  induction acc as [|[k c] acc IH]; cbn [tally map fst In].
  - intuition congruence.
  - destruct (String.eqb_spec s k) as [->|Hne]; cbn [map fst In].
    + intuition congruence.
    + rewrite IH. intuition congruence.
Qed.

Lemma tally_NoDup (s : string) (acc : list (string * Z)) :
  NoDup (map fst acc) -> NoDup (map fst (tally s acc)).
Proof.
  induction acc as [|[k c] acc IH]; cbn [tally map fst]; intros H.
  - constructor; [tauto|constructor].
  - inversion H as [|? ? Hk Hnd]; subst.
    destruct (String.eqb_spec s k) as [->|Hne]; cbn [map fst].
    + now constructor.
    + constructor; [|now apply IH].
      rewrite tally_keys. intros [E|Hin]; [congruence|contradiction].
Qed.

Lemma sum_where_tally (f : string -> bool) (s : string)
    (acc : list (string * Z)) :
  sum_where f (tally s acc) = sum_where f ((s, 1) :: acc).
Proof.
  induction acc as [|[k c] acc IH]; [reflexivity|].
  cbn [tally]. destruct (String.eqb_spec s k) as [->|Hne].
  - rewrite !sum_where_cons. destruct (f k); lia.
  - rewrite sum_where_cons, IH, !sum_where_cons. lia.
Qed.

Lemma fold_tally (f : string -> bool) (values : list string)
    (acc : list (string * Z)) :
  (NoDup (map fst acc) ->
   NoDup (map fst (fold_left (fun a s => tally s a) values acc))) /\
  (forall x, In x (map fst (fold_left (fun a s => tally s a) values acc))
             <-> In x values \/ In x (map fst acc)) /\
  sum_where f (fold_left (fun a s => tally s a) values acc)
  = Z.of_nat (length (filter f values)) + sum_where f acc.
Proof.
  revert acc. induction values as [|s values IH]; intros acc;
    cbn [fold_left].
  - split; [tauto|]. split; [cbn; tauto|]. cbn. lia.
  - destruct (IH (tally s acc)) as (Hnd & Hkeys & Hsum).
    split; [intros H; now apply Hnd, tally_NoDup|]. split.
    + intros x. rewrite Hkeys, tally_keys. cbn [In]. intuition congruence.
    + rewrite Hsum, sum_where_tally, sum_where_cons. cbn [filter].
      destruct (f s); cbn [length]; lia.
Qed.

Lemma nodup_sum_where (k : string) (c : Z) (l : list (string * Z)) :
  NoDup (map fst l) -> In (k, c) l -> sum_where (String.eqb k) l = c.
Proof.
  induction l as [|[k' c'] l IH]; cbn [map fst]; intros Hnd Hin;
    [contradiction|].
  inversion Hnd as [|? ? Hk Hnd']; subst.
  rewrite sum_where_cons. destruct Hin as [E|Hin].
  - inversion E; subst. rewrite String.eqb_refl.
    unfold sum_where. rewrite (filter_none _ l).
    + unfold sum_values. cbn. lia.
    + intros [y d] Hy. cbn [fst].
      destruct (String.eqb_spec k y) as [->|]; [|reflexivity].
      exfalso. apply Hk. now apply (in_map fst _ (y, d)).
  - destruct (String.eqb_spec k k') as [->|_].
    + exfalso. apply Hk. now apply (in_map fst _ (k', c)).
    + rewrite (IH Hnd' Hin). lia.
Qed.

Lemma present_In (col : list (option string)) (s : string) :
  In s (present col) <-> In (Some s) col.
Proof.
  unfold present. rewrite in_flat_map. split.
  - intros ([x|] & Hin & Hs); cbn in Hs; [|contradiction].
    destruct Hs as [->|[]]. exact Hin.
  - intros H. exists (Some s). split; [exact H|now left].
Qed.

Lemma filter_all {X : Type} (l : list X) : filter (fun _ => true) l = l.
Proof. induction l as [|x l IH]; cbn; [reflexivity|now rewrite IH]. Qed.

Lemma tally_all_NoDup (values : list string) :
  NoDup (map fst (tally_all values)).
Proof.
  apply (proj1 (fold_tally (fun _ => true) values [])). constructor.
Qed.

Lemma tally_all_keys (values : list string) (s : string) :
  In s (map fst (tally_all values)) <-> In s values.
Proof.
  unfold tally_all.
  rewrite (proj1 (proj2 (fold_tally (fun _ => true) values []))).
  cbn. tauto.
Qed.

Lemma tally_all_where (f : string -> bool) (values : list string) :
  sum_where f (tally_all values) = Z.of_nat (length (filter f values)).
Proof.
  unfold tally_all. rewrite (proj2 (proj2 (fold_tally f values []))).
  unfold sum_where, sum_values. cbn. lia.
Qed.

Lemma value_counts_total
    (argsort : list Z -> list nat) (col : list (option string)) :
  argsort_contract argsort ->
  sum_trips (value_counts argsort col) = Z.of_nat (length (present col)).
Proof.
  intros contract. unfold value_counts.
  rewrite (sum_trips_perm _ _ (sort_values_desc_perm argsort contract snd
                                 (tally_all (present col)))).
  now rewrite <- sum_where_all, tally_all_where, filter_all.
Qed.

(** X16.  [value_counts] of a column, as used for the vehicle types and
    the start stations: one row per distinct label that occurs, each with
    the number of its occurrences, which is positive; missing cells are not
    counted; the rows are sorted descending by count and the counts add up
    to the number of cells that are not missing. *)
Theorem value_counts_tallies_present_labels
    (argsort : list Z -> list nat) (col : list (option string)) :
  argsort_contract argsort ->
  NoDup (map fst (value_counts argsort col)) /\
  (forall s, In s (map fst (value_counts argsort col))
             <-> In (Some s) col) /\
  (forall s c, In (s, c) (value_counts argsort col) ->
               c = occurrences s (present col) /\ 0 < c) /\
  descending (map snd (value_counts argsort col)) /\
  sum_trips (value_counts argsort col) = Z.of_nat (length (present col)).
Proof.
  intros contract.
  assert (Htotal := value_counts_total argsort col contract).
  unfold value_counts in *.
  assert (HP := sort_values_desc_perm argsort contract snd
                  (tally_all (present col))).
  split; [|split; [|split; [|split; [|exact Htotal]]]].
  - apply (Permutation_NoDup (l := map fst (tally_all (present col))));
      [|apply tally_all_NoDup].
    apply Permutation_map. now symmetry.
  - intros s. rewrite <- present_In, <- (tally_all_keys (present col) s).
    split; intros H.
    + eapply Permutation_in; [|exact H]. now apply Permutation_map.
    + eapply Permutation_in; [|exact H].
      apply Permutation_map. now symmetry.
  - intros s c Hin. apply (Permutation_in _ HP) in Hin.
    assert (Hc : c = occurrences s (present col)).
    { unfold occurrences. rewrite <- tally_all_where. symmetry.
      apply nodup_sum_where; [apply tally_all_NoDup|exact Hin]. }
    split; [exact Hc|].
    assert (Hs : In s (present col))
      by (apply tally_all_keys; now apply (in_map fst _ (s, c))).
    unfold occurrences in Hc.
    assert (Hin' : In s (filter (String.eqb s) (present col)))
      by (apply filter_In; split; [exact Hs|apply String.eqb_refl]).
    destruct (filter (String.eqb s) (present col));
      [contradiction|cbn in Hc; lia].
  - now apply sort_values_desc_sorted.
Qed.

Lemma value_counts_tallies_present_labels_witness :
  sum_trips (type_counts stable_argsort
               [mkTrip (mkDate 2022 1 5) None (Some "classic_bike");
                mkTrip (mkDate 2022 1 6) None None;
                mkTrip (mkDate 2022 1 7) None (Some "electric_bike");
                mkTrip (mkDate 2022 1 8) None (Some "classic_bike")])
  = 3.
Proof.
  exact (proj2 (proj2 (proj2 (proj2
    (value_counts_tallies_present_labels stable_argsort
       (map trip_rideable_type
          [mkTrip (mkDate 2022 1 5) None (Some "classic_bike");
           mkTrip (mkDate 2022 1 6) None None;
           mkTrip (mkDate 2022 1 7) None (Some "electric_bike");
           mkTrip (mkDate 2022 1 8) None (Some "classic_bike")])
       stable_argsort_contract))))).
Defined.

Lemma present_length (col : list (option string)) :
  (length (present col) <= length col)%nat.
Proof.
  unfold present. induction col as [|o col IH]; [reflexivity|].
  cbn [flat_map]. rewrite length_app. destruct o; cbn [length]; lia.
Qed.

(** X17.  For a sample with at least one trip, every row of
    [sample_station_counts] has the share [trips / sample_total], and the
    shares add up to the fraction of the trips that have a start station:
    at most 1, and exactly 1 when no trip lacks its station. *)
Theorem sample_station_shares
    (argsort : list Z -> list nat) (df : list Trip) :
  argsort_contract argsort ->
  df <> [] ->
  Forall (fun r => share_of_sample r
                   = (inject_Z (sc_trips r) / inject_Z (sample_total df))%Q)
    (sample_station_counts argsort df) /\
  (sum_shares (map share_of_sample (sample_station_counts argsort df))
   == inject_Z (Z.of_nat (length (present (map trip_start_station df))))
      / inject_Z (sample_total df))%Q /\
  (sum_shares (map share_of_sample (sample_station_counts argsort df))
   <= 1)%Q.
Proof.
  intros contract Hne.
  assert (Hpos : 0 < sample_total df).
  { unfold sample_total. destruct df; [congruence|cbn; lia]. }
  assert (Hsum :
    (sum_shares (map share_of_sample (sample_station_counts argsort df))
     == inject_Z (Z.of_nat (length (present (map trip_start_station df))))
        / inject_Z (sample_total df))%Q).
  { unfold sample_station_counts. rewrite map_map. cbn [share_of_sample].
    destruct (Z.eqb_spec (sample_total df) 0) as [|_]; [lia|].
    rewrite <- (map_map snd
                  (fun v => (inject_Z v / inject_Z (sample_total df))%Q)).
    rewrite sum_shares_quotients.
    assert (Htot := value_counts_total argsort
                      (map trip_start_station df) contract).
    unfold sum_trips in Htot. fold (sum_values
      (map snd (value_counts argsort (map trip_start_station df)))) in Htot.
    now rewrite Htot. }
  split; [|split; [exact Hsum|]].
  - unfold sample_station_counts. apply Forall_forall. intros r Hr.
    apply in_map_iff in Hr. destruct Hr as (r0 & <- & _).
    cbn [share_of_sample sc_trips].
    destruct (Z.eqb_spec (sample_total df) 0) as [|_]; [lia|reflexivity].
  - rewrite Hsum, <- (quotient_self (sample_total df)) by lia.
    apply quotient_le; [exact Hpos|]. unfold sample_total.
    apply inj_le.
    rewrite <- (length_map trip_start_station df). apply present_length.
Qed.

Lemma sample_station_shares_witness :
  (sum_shares
     (map share_of_sample
        (sample_station_counts stable_argsort
           [mkTrip (mkDate 2022 1 5) (Some "Grove St PATH") None;
            mkTrip (mkDate 2022 1 6) None None;
            mkTrip (mkDate 2022 1 7) (Some "City Hall") None;
            mkTrip (mkDate 2022 1 8) (Some "Grove St PATH") None]))
   == inject_Z 3 / inject_Z 4)%Q.
Proof.
  apply (sample_station_shares stable_argsort
           [mkTrip (mkDate 2022 1 5) (Some "Grove St PATH") None;
            mkTrip (mkDate 2022 1 6) None None;
            mkTrip (mkDate 2022 1 7) (Some "City Hall") None;
            mkTrip (mkDate 2022 1 8) (Some "Grove St PATH") None]
           stable_argsort_contract).
  discriminate.
Defined.

(** ** The order of the rows of the trip table *)

Lemma filter_length_perm {X : Type} (f : X -> bool) (l l' : list X) :
  Permutation l l' -> length (filter f l) = length (filter f l').
Proof.
  induction 1 as [|x l l' _ IH|x y l|l l' l'' _ IH1 _ IH2]; cbn [filter].
  - reflexivity.
  - destruct (f x); cbn [length]; now rewrite IH.
  - destruct (f x), (f y); reflexivity.
  - now rewrite IH1.
Qed.

Lemma present_perm (col col' : list (option string)) :
  Permutation col col' -> Permutation (present col) (present col').
Proof.
  unfold present.
  induction 1 as [|x l l' _ IH|x y l|l l' l'' _ IH1 _ IH2];
    cbn [flat_map].
  - constructor.
  - now apply Permutation_app_head.
  - rewrite !app_assoc. apply Permutation_app_tail, Permutation_app_comm.
  - now transitivity (flat_map (fun o => match o with
                                       | Some s => [s]
                                       | None => []
                                       end) l').
Qed.

Lemma tally_all_In (values : list string) (s : string) (c : Z) :
  In (s, c) (tally_all values) <->
  In s values /\ c = occurrences s values.
Proof.
  assert (Hc : forall c', In (s, c') (tally_all values) ->
                          c' = occurrences s values).
  { intros c' Hin. unfold occurrences. rewrite <- tally_all_where.
    symmetry. apply nodup_sum_where; [apply tally_all_NoDup|exact Hin]. }
  split.
  - intros Hin. split; [|now apply Hc].
    apply tally_all_keys. now apply (in_map fst _ (s, c)).
  - intros [Hin ->]. apply tally_all_keys, in_map_iff in Hin.
    destruct Hin as ([s' c'] & E & Hin). cbn [fst] in E. subst s'.
    now rewrite <- (Hc c' Hin).
Qed.

Lemma tally_all_perm (l l' : list string) :
  Permutation l l' -> Permutation (tally_all l) (tally_all l').
Proof.
  intros H. apply NoDup_Permutation.
  - apply (NoDup_map_inv fst), tally_all_NoDup.
  - apply (NoDup_map_inv fst), tally_all_NoDup.
  - intros [s c]. rewrite !tally_all_In. unfold occurrences.
    rewrite (filter_length_perm (String.eqb s) _ _ H).
    split; intros [Hin Hc]; (split; [|exact Hc]).
    + now apply (Permutation_in _ H).
    + now apply (Permutation_in _ (Permutation_sym H)).
Qed.

Lemma value_counts_perm
    (argsort : list Z -> list nat) (col col' : list (option string)) :
  argsort_contract argsort ->
  Permutation col col' ->
  Permutation (value_counts argsort col) (value_counts argsort col').
Proof.
  intros contract H. unfold value_counts.
  rewrite (sort_values_desc_perm argsort contract snd
             (tally_all (present col))).
  rewrite (sort_values_desc_perm argsort contract snd
             (tally_all (present col'))).
  now apply tally_all_perm, present_perm.
Qed.

(** X6.  Two samples with the same trips in a different order give the
    same outcome: the same exception, or bundles that agree in every
    statistic except that, in the two tables of counts per label
    ([type_counts] and [sample_station_counts]), labels with equal counts
    may come in a different order. *)
Theorem quick_stats_row_order_irrelevant
    (argsort : list Z -> list nat) (lib : Library) (df df' : list Trip)
    (top20 : DataFrame) :
  argsort_contract argsort ->
  Permutation df df' ->
  match quick_stats argsort lib df top20,
        quick_stats argsort lib df' top20 with
  | Ok st, Ok st' => same_up_to_tied_labels st st'
  | Err e, Err e' => e = e'
  | _, _ => False
  end.
Proof.
  intros contract H.
  assert (Hd : daily df = daily df') by now apply daily_perm.
  assert (Hs : seasonal argsort df = seasonal argsort df').
  { unfold seasonal. f_equal.
    apply (groupby_size_perm season_compare season_order).
    now apply Permutation_map. }
  assert (Hm : monthly_sorted argsort df = monthly_sorted argsort df')
    by (unfold monthly_sorted, monthly; now rewrite Hd).
  assert (Hmin : date_min df = date_min df')
    by (unfold date_min;
        now rewrite (series_min_perm _ _ (Permutation_map date H))).
  assert (Hmax : date_max df = date_max df')
    by (unfold date_max;
        now rewrite (series_max_perm _ _ (Permutation_map date H))).
  assert (Hpk : peak_row df = peak_row df')
    by (unfold peak_row; now rewrite Hd).
  assert (Hwe : weekend_total df = weekend_total df')
    by (unfold weekend_total; now rewrite Hd).
  assert (Hwd : weekday_total df = weekday_total df')
    by (unfold weekday_total; now rewrite Hd).
  assert (Hsh : weekend_share df = weekend_share df')
    by (unfold weekend_share; now rewrite Hwe, Hwd).
  assert (Hn : sample_total df = sample_total df')
    by (unfold sample_total; now rewrite (Permutation_length H)).
  assert (Htc : Permutation (type_counts argsort df)
                  (type_counts argsort df')).
  { apply value_counts_perm; [exact contract|].
    now apply Permutation_map. }
  assert (Hsc : Permutation (sample_station_counts argsort df)
                  (sample_station_counts argsort df')).
  { unfold sample_station_counts. rewrite Hn. apply Permutation_map.
    apply value_counts_perm; [exact contract|].
    now apply Permutation_map. }
  unfold quick_stats. rewrite Hmin, Hmax, Hpk, Hsh, Hd, Hs, Hm, Hwe, Hwd, Hn.
  destruct (date_min df'); cbn [bind]; [|reflexivity].
  destruct (date_max df'); cbn [bind]; [|reflexivity].
  destruct (peak_row df'); cbn [bind]; [|reflexivity].
  destruct (weekend_share df'); cbn [bind]; [|reflexivity].
  destruct (top20_prep argsort lib (normalize top20)); cbn [bind];
    [|reflexivity].
  destruct (handy_picks lib _ _ _); cbn [bind]; [|reflexivity].
  unfold same_up_to_tied_labels.
  cbn [st_sample_total st_date_range st_daily st_peak_row st_monthly_sorted
       st_seasonal st_weekend_total st_weekday_total st_weekend_share
       st_top20 st_top20_total st_picks st_type_counts
       st_sample_station_counts].
  repeat (split; [reflexivity|]). split; assumption.
Qed.

Lemma quick_stats_row_order_irrelevant_witness :
  match quick_stats stable_argsort refusing_library
          [mkTrip (mkDate 2022 6 10) (Some "Grove St PATH") None;
           mkTrip (mkDate 2022 1 5) (Some "City Hall") None]
          six_busy_stations,
        quick_stats stable_argsort refusing_library
          [mkTrip (mkDate 2022 1 5) (Some "City Hall") None;
           mkTrip (mkDate 2022 6 10) (Some "Grove St PATH") None]
          six_busy_stations with
  | Ok st, Ok st' => same_up_to_tied_labels st st'
  | Err e, Err e' => e = e'
  | _, _ => False
  end.
Proof.
  apply quick_stats_row_order_irrelevant;
    [exact stable_argsort_contract|apply perm_swap].
Defined.

(** ** The weekend share is a fraction *)

(** X18.  [weekend_share] is always produced and lies between 0 and 1, so
    the weekday share [1 - weekend_share] shown beside it is never
    negative. *)
Theorem weekend_share_is_a_fraction (df : list Trip) :
  exists q, weekend_share df = Ok q /\ (0 <= q)%Q /\ (q <= 1)%Q.
Proof.
  assert (Hwe := weekend_total_nonneg df).
  assert (Hwd := weekday_total_nonneg df).
  unfold weekend_share, truediv.
  destruct (Z.gtb_spec (weekend_total df + weekday_total df) 0) as [Hpos|_].
  - destruct (Z.eqb_spec (weekend_total df + weekday_total df) 0); [lia|].
    eexists. split; [reflexivity|]. split.
    + unfold Qdiv. apply Qmult_le_0_compat.
      * change 0%Q with (inject_Z 0). rewrite <- Zle_Qle. exact Hwe.
      * apply Qinv_le_0_compat. change 0%Q with (inject_Z 0).
        rewrite <- Zle_Qle. lia.
    + rewrite <- (quotient_self (weekend_total df + weekday_total df))
        by lia.
      apply quotient_le; lia.
  - exists 0%Q. split; [reflexivity|]. split; discriminate.
Qed.

(** ** Where the commas go *)

Lemma group3_step (a b c d : ascii) (l : list ascii) :
  group3 (a :: b :: c :: d :: l)
  = a :: b :: c :: ","%char :: group3 (d :: l).
Proof. reflexivity. Qed.

Lemma group3_layout_bounded (n : nat) (l : list ascii) :
  (length l <= n)%nat ->
  Forall (fun c => is_comma c = false) l ->
  (l <> [] -> (length (group3 l) mod 4 <> 0)%nat) /\
  (forall i c, nth_error (group3 l) i = Some c ->
               (is_comma c = true <-> (i mod 4 = 3)%nat)).
Proof.
  revert l. induction n as [|n IH]; intros l Hlen Hl.
  { destruct l; [|cbn in Hlen; lia]. split; [congruence|].
    intros [|i] c H; discriminate H. }
  destruct l as [|a [|b [|c [|d l]]]].
  - split; [congruence|]. intros [|i] x H; discriminate H.
  - apply Forall_cons_iff in Hl. destruct Hl as (Ha & _).
    split; [intros _; cbn; lia|].
    intros [|[|i]] x H; cbn in H; inversion H; subst.
    rewrite Ha. cbn. split; [discriminate|lia].
  - rewrite !Forall_cons_iff in Hl. destruct Hl as (Ha & Hb & _).
    split; [intros _; cbn; lia|].
    intros [|[|[|i]]] x H; cbn in H; inversion H; subst;
      [rewrite Ha|rewrite Hb]; cbn; (split; [discriminate|lia]).
  - rewrite !Forall_cons_iff in Hl. destruct Hl as (Ha & Hb & Hc & _).
    split; [intros _; cbn; lia|].
    intros [|[|[|[|i]]]] x H; cbn in H; inversion H; subst;
      [rewrite Ha|rewrite Hb|rewrite Hc]; cbn;
      (split; [discriminate|lia]).
  - apply Forall_cons_iff in Hl. destruct Hl as (Ha & Hl).
    apply Forall_cons_iff in Hl. destruct Hl as (Hb & Hl).
    apply Forall_cons_iff in Hl. destruct Hl as (Hc & Hl).
    destruct (IH (d :: l)) as (Hmod & Hpos); [cbn in *; lia|exact Hl|].
    rewrite group3_step. split.
    + intros _. cbn [length].
      assert (Hm := Hmod ltac:(discriminate)).
      replace (S (S (S (S (length (group3 (d :: l)))))))
        with (length (group3 (d :: l)) + 1 * 4)%nat by lia.
      now rewrite Nat.Div0.mod_add.
    + intros i x H.
      destruct i as [|[|[|[|i]]]]; cbn [nth_error] in H.
      * inversion H; subst. rewrite Ha. cbn. split; [discriminate|lia].
      * inversion H; subst. rewrite Hb. cbn. split; [discriminate|lia].
      * inversion H; subst. rewrite Hc. cbn. split; [discriminate|lia].
      * inversion H; subst. cbn. split; [reflexivity|reflexivity].
      * rewrite (Hpos i x H).
        replace (S (S (S (S i)))) with (i + 1 * 4)%nat by lia.
        now rewrite Nat.Div0.mod_add.
Qed.

Lemma decimal_nonempty (n : N) : list_ascii_of_string (decimal n) <> [].
Proof.
  unfold decimal, NilZero.string_of_uint.
  destruct (N.to_uint n); cbn; discriminate.
Qed.

(** X19.  In the comma-grouped rendering of a non-negative integer, read
    from the right, exactly every fourth character is a comma, and the
    leftmost character is not a comma: the digits stand in groups of three
    with a leading group of one to three digits. *)
Theorem comma_grouped_groups_of_three (x : Z) :
  0 <= x ->
  (forall i c,
     nth_error (rev (list_ascii_of_string (comma_grouped x))) i = Some c ->
     (is_comma c = true <-> (i mod 4 = 3)%nat)) /\
  (exists c, nth_error (list_ascii_of_string (comma_grouped x)) 0 = Some c
             /\ is_comma c = false).
Proof.
  intros Hx. unfold comma_grouped.
  destruct (Z.ltb_spec x 0) as [|_]; [lia|].
  rewrite list_ascii_of_string_of_list_ascii, rev_involutive.
  set (ds := rev (list_ascii_of_string (decimal (Z.abs_N x)))).
  assert (Hds : Forall (fun c => is_comma c = false) ds)
    by (apply Forall_rev, decimal_no_comma).
  assert (Hne : ds <> []).
  { unfold ds. intros E. apply (decimal_nonempty (Z.abs_N x)).
    rewrite <- (rev_involutive (list_ascii_of_string _)), E. reflexivity. }
  destruct (group3_layout_bounded (length ds) ds (le_n _) Hds)
    as (Hmod & Hpos).
  split; [exact Hpos|].
  specialize (Hmod Hne).
  assert (Hlen : (0 < length (group3 ds))%nat).
  { destruct (group3 ds); [cbn in Hmod; congruence|cbn; lia]. }
  rewrite nth_error_rev.
  destruct (Nat.ltb_spec 0 (length (group3 ds))) as [_|]; [|lia].
  destruct (nth_error (group3 ds) (length (group3 ds) - 1)) as [c|] eqn:E.
  - exists c. split; [reflexivity|].
    destruct (is_comma c) eqn:Ec; [|reflexivity]. exfalso.
    apply (Hpos _ _ E) in Ec. apply Hmod.
    replace (length (group3 ds))
      with (((length (group3 ds) - 1) / 4 * 4
             + (length (group3 ds) - 1) mod 4) + 1)%nat
      by (rewrite Nat.mul_comm, <- Nat.div_mod_eq; lia).
    rewrite Ec.
    replace ((length (group3 ds) - 1) / 4 * 4 + 3 + 1)%nat
      with (0 + ((length (group3 ds) - 1) / 4 + 1) * 4)%nat by lia.
    now rewrite Nat.Div0.mod_add.
  - apply nth_error_None in E. lia.
Qed.

Lemma comma_grouped_groups_of_three_witness :
  exists c, nth_error (list_ascii_of_string (comma_grouped 1234567)) 0 = Some c
            /\ is_comma c = false.
Proof.
  apply (comma_grouped_groups_of_three 1234567). lia.
Defined.
